(** * Lumachat: the stream-to-render pipeline

    A shallow embedding of the chat page ([pages/index.tsx]) and of the
    relay ([pages/api/chat.ts]), and the proofs of what their
    specification says about them.

    - JavaScript strings are modelled by [string]: a sequence of code
      units, each an [ascii].  The three regular expressions of the page
      only test code units against the characters of their pattern, all
      below 128; a code unit above 127 never matches one of them, with or
      without the [i] flag.
    - The regular expressions are run by a backtracking matcher written
      after the one of the language definition, [exec] and
      [String.prototype.match] on top of it.
    - The state kept by the hooks of the page is threaded explicitly, the
      updates being applied in the order in which the code issues them.  A
      name of the component read in the body of [sendMessage] has the value
      of the render that called it; an updater function sees the current
      state.
    - The page is given the lines of the response, already cut and parsed;
      the relay is given what the provider does, and its result is the list
      of what it does to the response. *)

From Stdlib Require Import Lists.List Arith.Arith Bool.Bool Lia.
From Stdlib Require Import Strings.Ascii Strings.String.
Import ListNotations.
Open Scope list_scope.
Open Scope string_scope.
Open Scope nat_scope.

(** ** Strings *)

Module Str.

(** [s.slice(b)] for [0 <= b]. *)
Fixpoint drop (n : nat) (s : string) : string :=
  match n, s with
  | O, _ => s
  | S n', String _ s' => drop n' s'
  | S _, EmptyString => EmptyString
  end.

Fixpoint take (n : nat) (s : string) : string :=
  match n, s with
  | S n', String c s' => String c (take n' s')
  | _, _ => EmptyString
  end.

(** [s.slice(b, e)] for [0 <= b] and [0 <= e]: empty when [e <= b], cut at
    the end of [s]. *)
Definition slice (s : string) (b e : nat) : string := take (e - b) (drop b s).

Definition is_empty (s : string) : bool :=
  match s with EmptyString => true | String _ _ => false end.

(** [Boolean(s)] for a string [s]. *)
Definition truthy (s : string) : bool := negb (is_empty s).

(** [s1] starts [s2], code unit for code unit. *)
Fixpoint starts (s1 s2 : string) : bool :=
  match s1, s2 with
  | EmptyString, _ => true
  | String a s1', String b s2' => Ascii.eqb a b && starts s1' s2'
  | String _ _, EmptyString => false
  end.

End Str.

(** ** Regular expressions

    The fragment of ECMAScript patterns the page uses, matched by
    backtracking with continuations as in the language definition. *)

Module RegExp.

Inductive regex : Type :=
| Empty                      (* the empty pattern *)
| Chr (c : ascii)            (* a pattern character *)
| AnyChar                    (* the class [\s\S] *)
| Cat (r1 r2 : regex)        (* r1 r2 *)
| LazyStar (r : regex)       (* r*? *)
| Group (r : regex).         (* ( r ), the capturing group 1 *)

(** The characters of [s] one after the other. *)
Fixpoint literal (s : string) : regex :=
  match s with
  | EmptyString => Empty
  | String c s' => Cat (Chr c) (literal s')
  end.

(** Canonicalize of a code unit under the [i] flag without the [u] flag:
    the upper-case mapping, kept when it stays a single code unit of the
    same side of 128.  On the code units below 256 this moves [a]..[z] and
    the lower-case Latin-1 letters. *)
Definition Canonicalize (a : ascii) : ascii :=
  let n := nat_of_ascii a in
  if ((97 <=? n) && (n <=? 122)) ||
     ((224 <=? n) && (n <=? 254) && negb (n =? 247))
  then ascii_of_nat (n - 32) else a.

Definition char_eq (ignoreCase : bool) (c a : ascii) : bool :=
  if ignoreCase then Ascii.eqb (Canonicalize c) (Canonicalize a)
  else Ascii.eqb c a.

(** A match state is the input still to be read and the text captured by
    group 1, if it took part. *)
Definition Continuation : Type :=
  string -> option string -> option (string * option string).

Fixpoint matcher (ic : bool) (r : regex) (x : string) (cap : option string)
    (k : Continuation) {struct r} : option (string * option string) :=
  match r with
  | Empty => k x cap
  | Chr c =>
      match x with
      | String a x' => if char_eq ic c a then k x' cap else None
      | EmptyString => None
      end
  | AnyChar =>
      match x with
      | String _ x' => k x' cap
      | EmptyString => None
      end
  | Cat r1 r2 =>
      matcher ic r1 x cap (fun y cap' => matcher ic r2 y cap' k)
  | Group r1 =>
      matcher ic r1 x cap
        (fun y _ => k y (Some (Str.take (length x - length y) x)))
  | LazyStar r1 =>
      (* first the continuation, then one more round of r1; a round that
         reads nothing is refused *)
      (fix rounds (n : nat) (x : string) (cap : option string) :=
         match k x cap with
         | Some res => Some res
         | None =>
             match n with
             | O => None
             | S n' =>
                 matcher ic r1 x cap
                   (fun y cap' =>
                      if length y <? length x then rounds n' y cap' else None)
             end
         end) (length x) x cap
  end.

(** The result of a successful [exec]: [m.index], [m[0]] and [m[1]]. *)
Record MatchResult : Type := mkMatch {
  index : nat;
  whole : string;
  group1 : option string
}.

(** A pattern with its flags; every pattern of the page has the [g] flag. *)
Record RegExp : Type := mkRegExp {
  source : regex;
  ignoreCase : bool
}.

(** The first position from which the pattern matches, scanning [s], the
    input from position [i] on. *)
Fixpoint search (re : RegExp) (s : string) (i : nat) : option MatchResult :=
  match matcher (ignoreCase re) (source re) s None
          (fun y cap => Some (y, cap)) with
  | Some (y, cap) =>
      Some (mkMatch i (Str.take (length s - length y) s) cap)
  | None =>
      match s with
      | EmptyString => None
      | String _ s' => search re s' (S i)
      end
  end.

(** [re.exec(s)] with [re.lastIndex = lastIndex]: the match, if any, and
    the new value of [re.lastIndex]. *)
Definition exec (re : RegExp) (s : string) (lastIndex : nat)
  : option MatchResult * nat :=
  if length s <? lastIndex then (None, 0)
  else
    match search re (Str.drop lastIndex s) lastIndex with
    | Some m => (Some m, index m + length (whole m))
    | None => (None, 0)
    end.

(** The loop of [s.match(re)] for a global [re]: [exec] again and again,
    stepping over an empty match.  [lastIndex] grows at every round and no
    match starts beyond the end of [s], so [length s + 2] rounds are never
    used up (lemma [match_rounds_enough]). *)
Fixpoint match_rounds (n : nat) (re : RegExp) (s : string) (lastIndex : nat)
  : list string :=
  match n with
  | O => []
  | S n' =>
      match exec re s lastIndex with
      | (Some m, li) =>
          whole m ::
          match_rounds n' re s (if Str.is_empty (whole m) then S li else li)
      | (None, _) => []
      end
  end.

(** [s.match(re)]: [None] is [null]. *)
Definition String_match (s : string) (re : RegExp) : option (list string) :=
  match match_rounds (length s + 2) re s 0 with
  | [] => None
  | A => Some A
  end.

End RegExp.

(** ** pages/index.tsx *)

Module Page.

Import RegExp.

Record Segment : Type := mkSegment {
  content : string;
  isThink : bool
}.

(** [/<think>([\s\S]*?)<\/think>/gi] *)
Definition think_regex : RegExp :=
  mkRegExp
    (Cat (literal "<think>")
         (Cat (Group (LazyStar AnyChar)) (literal "</think>")))
    true.

(** [/```/g] *)
Definition fence_regex : RegExp := mkRegExp (literal "```") false.

(** [/\$\$/g] *)
Definition math_regex : RegExp := mkRegExp (literal "$$") false.

(** [m[1]] read as a string; group 1 takes part in every match of
    [think_regex] (lemma [think_match_shape]). *)
Definition capture1 (m : MatchResult) : string :=
  match group1 m with Some c => c | None => EmptyString end.

(** The [while ((m = regex.exec(md)))] loop of [splitThinkBlocks], with the
    variables [regex.lastIndex], [last] and [parts]; [None] when [fuel]
    rounds did not reach the end of the loop. *)
Fixpoint think_loop (fuel : nat) (md : string) (lastIndex last : nat)
    (parts : list Segment) : option (nat * list Segment) :=
  match fuel with
  | O => None
  | S fuel' =>
      match exec think_regex md lastIndex with
      | (Some m, lastIndex') =>
          let parts1 :=
            if last <? index m
            then (parts ++ [mkSegment (Str.slice md last (index m)) false])%list
            else parts in
          let parts2 := (parts1 ++ [mkSegment (capture1 m) true])%list in
          think_loop fuel' md lastIndex' (index m + length (whole m)) parts2
      | (None, _) => Some (last, parts)
      end
  end.

Definition splitThinkBlocks_fuel (fuel : nat) (md : string)
  : option (list Segment) :=
  match think_loop fuel md 0 0 [] with
  | Some (last, parts) =>
      Some (if last <? length md
            then (parts ++ [mkSegment (Str.drop last md) false])%list
            else parts)
  | None => None
  end.

(** Every round of the loop moves [lastIndex] forward, so [length md + 1]
    rounds are enough (lemma [splitThinkBlocks_total]). *)
Definition splitThinkBlocks (md : string) : option (list Segment) :=
  splitThinkBlocks_fuel (S (length md)) md.

Definition match_count (m : option (list string)) : nat :=
  match m with Some A => List.length A | None => 0 end.

Definition isBalanced (md : string) : bool :=
  let fences := match_count (String_match md fence_regex) in
  let math := match_count (String_match md math_regex) in
  (fences mod 2 =? 0) && (math mod 2 =? 0).

End Page.

(** *** The [Home] component *)

Module Home.

Import Page.

Inductive Role : Type := user | assistant.

Record Message : Type := mkMessage {
  role : Role;
  content : string
}.

(** The state hooks of [Home]. *)
Record State : Type := mkState {
  messages : list Message;
  input : string;
  loading : bool;
  fullContent : string;
  renderedContent : string
}.

Definition setMessages (f : list Message -> list Message) (st : State) :=
  mkState (f (messages st)) (input st) (loading st)
          (fullContent st) (renderedContent st).

Definition setInput (v : string) (st : State) :=
  mkState (messages st) v (loading st) (fullContent st) (renderedContent st).

Definition setLoading (v : bool) (st : State) :=
  mkState (messages st) (input st) v (fullContent st) (renderedContent st).

Definition setFullContent (v : string) (st : State) :=
  mkState (messages st) (input st) (loading st) v (renderedContent st).

Definition setRenderedContent (f : string -> string) (st : State) :=
  mkState (messages st) (input st) (loading st)
          (fullContent st) (f (renderedContent st)).

(** White space and line terminators among the code units below 256. *)
Definition is_space (a : ascii) : bool :=
  let n := nat_of_ascii a in
  ((9 <=? n) && (n <=? 13)) || (n =? 32) || (n =? 160).

Fixpoint all_space (s : string) : bool :=
  match s with
  | EmptyString => true
  | String a s' => is_space a && all_space s'
  end.

(** [!input.trim()] *)
Definition blank (s : string) : bool := all_space s.

(** A field read off a parsed payload: [None] is [undefined]. *)
Definition field : Type := option string.

(** [prev + delta] *)
Definition plus (prev : string) (delta : field) : string :=
  prev ++ match delta with Some d => d | None => "undefined" end.

(** [if (error)] *)
Definition field_truthy (v : field) : bool :=
  match v with Some e => Str.truthy e | None => false end.

(** A complete line of the response, as the loop tells them apart. *)
Inductive Line : Type :=
| NotData                          (* does not start with [data:] *)
| DoneLine                         (* the payload is [[DONE]] *)
| Payload (delta error : field)    (* [JSON.parse(payload)], destructured *)
| Malformed.                       (* [JSON.parse] throws *)

(** How the [for] loop over the lines of one read is left. *)
Inductive Exit : Type :=
| Next        (* all lines seen, [done] unchanged *)
| Finished    (* [done = true; break] *)
| Thrown.     (* an exception leaves [sendMessage] *)

(** [c[c.length - 1].content = v] on a copy of the list; the list is never
    empty here, the placeholder of the turn is its last element. *)
Fixpoint set_last (f : string -> string) (c : list Message) : list Message :=
  match c with
  | [] => []
  | [m] => [mkMessage (role m) (f (content m))]
  | m :: c' => m :: set_last f c'
  end.

(** Lines 197 to 208: the two updates made for a delta. *)
Definition apply_delta (delta : field) (st : State) : State :=
  let u := plus (fullContent st) delta in
  let st1 := if isBalanced u then setRenderedContent (fun _ => u) st else st in
  let st2 := setFullContent u st1 in
  setMessages (set_last (fun c => plus c delta)) st2.

Fixpoint for_lines (lines : list Line) (st : State) : State * Exit :=
  match lines with
  | [] => (st, Next)
  | NotData :: rest => for_lines rest st
  | DoneLine :: _ => (st, Finished)
  | Malformed :: _ => (st, Thrown)
  | Payload delta error :: rest =>
      if field_truthy error
      then (setMessages
              (set_last (fun _ => match error with
                                  | Some e => e
                                  | None => EmptyString
                                  end)) st, Finished)
      else for_lines rest (apply_delta delta st)
  end.

(** The [while (!done)] loop: one element of [reads] for each read that
    brings a value, holding the lines this read completes; the end of the
    list is the read that reports the end of the body. *)
Fixpoint read_loop (reads : list (list Line)) (st : State) : State * Exit :=
  match reads with
  | [] => (st, Finished)
  | lines :: rest =>
      match for_lines lines st with
      | (st', Next) => read_loop rest st'
      | r => r
      end
  end.

(** Lines 155 to 163: the two messages of the turn are appended, the input
    is cleared and the two buffers are reset. *)
Definition begin_turn (render : State) : State :=
  let userMsg := mkMessage user (input render) in
  let updated := (messages render ++ [userMsg])%list in
  let st := setMessages (fun _ => updated) render in
  let st := setInput EmptyString st in
  let st := setLoading true st in
  let st :=
    setMessages (fun m => (m ++ [mkMessage assistant EmptyString])%list) st in
  let st := setFullContent EmptyString st in
  setRenderedContent (fun _ => EmptyString) st.

(** [sendMessage], called from the render whose state is [render]: the
    names [input], [messages] and [fullContent] in its body are the values
    of that render, the updater functions see the current state.  [res] is
    the body of the response, [None] when it has none.  The result is the
    state once the call is over, and whether it ended by an exception. *)
Definition sendMessage (render : State) (res : option (list (list Line)))
  : State * Exit :=
  if blank (input render) then (render, Finished)
  else
    let st := begin_turn render in
    match res with
    | None => (setLoading false st, Finished)
    | Some reads =>
        match read_loop reads st with
        | (st, Thrown) => (st, Thrown)
        | (st, _) =>
            let st :=
              setRenderedContent
                (fun prev =>
                   if Str.truthy (fullContent render)
                      && isBalanced (fullContent render)
                   then fullContent render else prev) st in
            (setLoading false st, Finished)
        end
    end.

End Home.

(** ** pages/api/chat.ts *)

Module Relay.

Definition LF : string := String (ascii_of_nat 10) EmptyString.

Definition hex_digit (n : nat) : ascii :=
  ascii_of_nat (if n <? 10 then 48 + n else 87 + n).

(** QuoteJSONString, one code unit at a time. *)
Definition quote_unit (a : ascii) : string :=
  let n := nat_of_ascii a in
  let bs := String (ascii_of_nat 92) EmptyString in
  if n =? 8 then bs ++ "b"
  else if n =? 9 then bs ++ "t"
  else if n =? 10 then bs ++ "n"
  else if n =? 12 then bs ++ "f"
  else if n =? 13 then bs ++ "r"
  else if n =? 34 then bs ++ String a EmptyString
  else if n =? 92 then bs ++ bs
  else if n <? 32
       then bs ++ "u00" ++ String (hex_digit (n / 16))
                             (String (hex_digit (n mod 16)) EmptyString)
       else String a EmptyString.

Fixpoint quote_units (s : string) : string :=
  match s with
  | EmptyString => EmptyString
  | String a s' => quote_unit a ++ quote_units s'
  end.

Definition dq : string := String (ascii_of_nat 34) EmptyString.

(** [JSON.stringify(s)] for a string [s]. *)
Definition JSON_stringify (s : string) : string := dq ++ quote_units s ++ dq.

(** [JSON.stringify({ key: s })] *)
Definition JSON_stringify_obj (key s : string) : string :=
  "{" ++ dq ++ key ++ dq ++ ":" ++ JSON_stringify s ++ "}".

Record Request : Type := mkRequest {
  method : option string;
  body_messages : list Home.Message
}.

(** What the provider does with the call: [create] rejects, or it gives a
    stream that yields parts, [part.choices?.[0]?.delta?.content] of each
    being a string or nothing, and then ends or throws. *)
Inductive Upstream : Type :=
| CreateRejects
| Stream (parts : list (option string)) (throws : bool).

Inductive HeaderValue : Type :=
| One (v : string)
| Several (vs : list string).

(** What [handler] does to its response and to the provider, in order. *)
Inductive Effect : Type :=
| status (code : nat)
| setHeader (name : string) (value : HeaderValue)
| json_error (error : string)             (* [res.json({ error })] *)
| flushHeaders
| create (model : string) (messages : list Home.Message)
| write (chunk : string)
| end_
| console_error.

(** The [catch] block. *)
Definition catch_block : list Effect :=
  [ console_error;
    write ("data: " ++ JSON_stringify_obj "error" "OpenAI API error"
             ++ LF ++ LF);
    end_ ].

(** The [for await] loop, followed by what comes after it in the [try]
    block or by the [catch] block. *)
Fixpoint for_await (parts : list (option string)) (throws : bool)
  : list Effect :=
  match parts with
  | part :: rest =>
      match part with
      | Some delta =>
          if Str.truthy delta
          then write ("data: " ++ JSON_stringify_obj "delta" delta ++ LF ++ LF)
                 :: for_await rest throws
          else for_await rest throws
      | None => for_await rest throws
      end
  | [] =>
      if throws then catch_block
      else [ write ("data: [DONE]" ++ LF ++ LF); end_ ]
  end.

(** [handler(req, res)], with [MODEL_NAME] of the environment. *)
Definition handler (MODEL_NAME : string) (req : Request) (up : Upstream)
  : list Effect :=
  if negb (match method req with
           | Some m => String.eqb m "POST"
           | None => false
           end)
  then [ status 405;
         setHeader "Allow" (Several ["POST"]);
         json_error "Method Not Allowed" ]
  else
    [ setHeader "Content-Type" (One "text/event-stream");
      setHeader "Cache-Control" (One "no-cache, no-transform");
      setHeader "Connection" (One "keep-alive");
      flushHeaders;
      create MODEL_NAME (body_messages req) ]
    ++ match up with
       | CreateRejects => catch_block
       | Stream parts throws => for_await parts throws
       end.

(** The wire events of the specification and their frames. *)
Inductive WireEvent : Type :=
| Delta (text : string)
| Done
| Error (message : string).

Definition frame (e : WireEvent) : string :=
  match e with
  | Delta text => "data: " ++ JSON_stringify_obj "delta" text ++ LF ++ LF
  | Done => "data: [DONE]" ++ LF ++ LF
  | Error message => "data: " ++ JSON_stringify_obj "error" message ++ LF ++ LF
  end.

Definition is_terminal (e : WireEvent) : bool :=
  match e with Delta _ => false | _ => true end.

(** The chunks written to the response, in order. *)
Fixpoint written (es : list Effect) : list string :=
  match es with
  | [] => []
  | write c :: es' => c :: written es'
  | _ :: es' => written es'
  end.

End Relay.


(** ** The words of the specification *)

Module Spec.

Import RegExp Page.

(** The number of occurrences of the delimiter [d] in [t], read from left
    to right, an occurrence starting where the one before it has ended at
    the earliest; [skip] code units of [t] still belong to the occurrence
    counted last. *)
Fixpoint occurrences_from (d : string) (skip : nat) (t : string) : nat :=
  match t with
  | EmptyString => 0
  | String _ t' =>
      match skip with
      | S k => occurrences_from d k t'
      | O =>
          if Str.starts d t
          then S (occurrences_from d (length d - 1) t')
          else occurrences_from d 0 t'
      end
  end.

Definition occurrences (d t : string) : nat := occurrences_from d 0 t.

Definition fence_count (t : string) : nat := occurrences "```" t.

Definition math_count (t : string) : nat := occurrences "$$" t.

(** [A]..[Z] in lower case, the other code units as they are. *)
Definition lower_unit (a : ascii) : ascii :=
  let n := nat_of_ascii a in
  if (65 <=? n) && (n <=? 90) then ascii_of_nat (n + 32) else a.

Fixpoint lower (s : string) : string :=
  match s with
  | EmptyString => EmptyString
  | String a s' => String (lower_unit a) (lower s')
  end.

(** [p] is written somewhere in [s]. *)
Fixpoint occurs (p s : string) : bool :=
  Str.starts p s ||
  match s with
  | EmptyString => false
  | String _ s' => occurs p s'
  end.

(** An opening think-tag, in any letter case. *)
Definition is_open_tag (o : string) : bool := String.eqb (lower o) "<think>".

(** A closing think-tag, in any letter case. *)
Definition is_close_tag (c : string) : bool :=
  String.eqb (lower c) "</think>".

(** No opening tag of [s] has a closing tag after it. *)
Fixpoint unterminated (s : string) : bool :=
  (negb (Str.starts "<think>" (lower s))
   || negb (occurs "</think>" (lower (Str.drop 7 s))))
  && match s with
     | EmptyString => true
     | String _ s' => unterminated s'
     end.

(** The segments put back together, think-tags around the think segments. *)
Fixpoint rebuild (segs : list Segment) : string :=
  match segs with
  | [] => EmptyString
  | seg :: segs' =>
      (if isThink seg then "<think>" ++ content seg ++ "</think>"
       else content seg) ++ rebuild segs'
  end.

(** The same, the tags around the think segments being those of [tags],
    one pair for each think segment, each a think-tag in some letter
    case. *)
Inductive rebuilds : list (string * string) -> list Segment -> string -> Prop :=
| rebuilds_nil : rebuilds [] [] EmptyString
| rebuilds_plain (text : string) tags segs s :
    rebuilds tags segs s ->
    rebuilds tags (mkSegment text false :: segs) (text ++ s)
| rebuilds_think (o c text : string) tags segs s :
    is_open_tag o = true ->
    is_close_tag c = true ->
    rebuilds tags segs s ->
    rebuilds ((o, c) :: tags) (mkSegment text true :: segs)
             (o ++ text ++ c ++ s).

(** The plain segment for the text [s], none when [s] is empty. *)
Definition plain (s : string) : list Segment :=
  if Str.is_empty s then [] else [mkSegment s false].

(** A line that brings a delta brings some text. *)
Definition delta_not_empty (l : Home.Line) : bool :=
  match l with
  | Home.Payload delta error =>
      Home.field_truthy error || Home.field_truthy delta
  | _ => true
  end.

(** The wire events for what the provider does: a delta for each part that
    has some text, then the terminal event. *)
Definition relay_events (up : Relay.Upstream) : list Relay.WireEvent :=
  match up with
  | Relay.CreateRejects => [Relay.Error "OpenAI API error"]
  | Relay.Stream parts throws =>
      (flat_map
         (fun part =>
            match part with
            | Some text => if Str.truthy text then [Relay.Delta text] else []
            | None => []
            end) parts
       ++ [if throws then Relay.Error "OpenAI API error" else Relay.Done])%list
  end.

(** The line the page reads off the frame of a wire event: [JSON.parse]
    undoes [JSON.stringify]. *)
Definition received (e : Relay.WireEvent) : Home.Line :=
  match e with
  | Relay.Delta text => Home.Payload (Some text) None
  | Relay.Done => Home.DoneLine
  | Relay.Error message => Home.Payload None (Some message)
  end.

(** A turn from the provider to the page, each frame read by a read of its
    own. *)
Definition turn (render : Home.State) (up : Relay.Upstream)
  : Home.State * Home.Exit :=
  Home.sendMessage render
    (Some (map (fun e => [received e]) (relay_events up))).

End Spec.

(** ** Notions used in the proofs *)

Module Aux.

Import Str RegExp Page Spec.

(** The pattern [p] read at the start of [x]: what follows it. *)
Fixpoint strip (ic : bool) (p x : string) : option string :=
  match p with
  | EmptyString => Some x
  | String c p' =>
      match x with
      | String a x' => if char_eq ic c a then strip ic p' x' else None
      | EmptyString => None
      end
  end.

(** The pattern [p] reads all of [o]. *)
Fixpoint same_text (ic : bool) (p o : string) : bool :=
  match p, o with
  | EmptyString, EmptyString => true
  | String c p', String a o' => char_eq ic c a && same_text ic p' o'
  | _, _ => false
  end.

(** The pattern [p] can be read somewhere in [s]. *)
Fixpoint reads_in (ic : bool) (p s : string) : bool :=
  match strip ic p s with
  | Some _ => true
  | None =>
      match s with
      | EmptyString => false
      | String _ s' => reads_in ic p s'
      end
  end.

(** The first end of [x], from the longest on, that [k] accepts. *)
Fixpoint first_suffix {A : Type} (k : string -> option A) (x : string)
  : option A :=
  match k x with
  | Some r => Some r
  | None =>
      match x with
      | EmptyString => None
      | String _ x' => first_suffix k x'
      end
  end.

(** What the think pattern reads after an opening tag: up to the first
    closing tag that follows it. *)
Definition close_after (y0 : string) : option (string * option string) :=
  first_suffix
    (fun y =>
       match strip true "</think>" y with
       | Some z => Some (z, Some (take (length y0 - length y) y0))
       | None => None
       end) y0.

(** What [splitThinkBlocks] does once its loop is over. *)
Definition after_loop (md : string) (r : option (nat * list Segment))
  : option (list Segment) :=
  match r with
  | Some (last, parts) =>
      Some (if last <? length md
            then (parts ++ [mkSegment (drop last md) false])%list
            else parts)
  | None => None
  end.

(** A plain segment holds some text. *)
Definition plain_ok (seg : Segment) : Prop :=
  isThink seg = false -> content seg <> EmptyString.

(** The code units of the two think-tags. *)
Definition tag_unit (c : ascii) : Prop :=
  In c (list_ascii_of_string "</think>").

Definition tag_units (p : string) : Prop :=
  forall c, In c (list_ascii_of_string p) -> tag_unit c.

(** The safe buffer starts the full one. *)
Definition safe_prefix (st : Home.State) : Prop :=
  exists tail, Home.fullContent st = Home.renderedContent st ++ tail.

(** The safe buffer starts the full one, and is all of it exactly when
    the full one is balanced. *)
Definition buffers_ok (st : Home.State) : Prop :=
  safe_prefix st /\
  (Home.renderedContent st = Home.fullContent st
   <-> isBalanced (Home.fullContent st) = true).

End Aux.

(** * The rest of the page *)

(** ** The lines of the response (lines 174 to 187 of the page) *)

Module Wire.

Import Str Home.

Definition is_LF (a : ascii) : bool := nat_of_ascii a =? 10.

Definition is_CR (a : ascii) : bool := nat_of_ascii a =? 13.

Definition starts_LF (s : string) : bool :=
  match s with String a _ => is_LF a | EmptyString => false end.

(** One more code unit at the front of the first piece. *)
Definition onto_first (a : ascii) (pieces : list string) : list string :=
  match pieces with
  | p :: more => String a p :: more
  | [] => [String a EmptyString]
  end.

(** [buf.split(/\r?\n/)]: the pattern reads a line feed, with the carriage
    return just before it when there is one; the pieces are what lies
    between the places where it reads, the last one being what follows the
    last line feed. *)
Fixpoint split_lines (buf : string) : list string :=
  match buf with
  | EmptyString => [EmptyString]
  | String a s =>
      if is_LF a then EmptyString :: split_lines s
      else if is_CR a && starts_LF s then split_lines s
      else onto_first a (split_lines s)
  end.

(** The reads that bring a value, [value] being what the decoder gives
    for each: [buf += ...; lines = buf.split(...); buf = lines.pop()].  The
    result holds the [lines] of each read. *)
Fixpoint cut_reads (buf : string) (values : list string) : list (list string) :=
  match values with
  | [] => []
  | value :: rest =>
      let lines := split_lines (buf ++ value) in
      removelast lines :: cut_reads (last lines EmptyString) rest
  end.

(** [buf] when the reads are over. *)
Fixpoint last_buf (buf : string) (values : list string) : string :=
  match values with
  | [] => buf
  | value :: rest => last_buf (last (split_lines (buf ++ value)) EmptyString) rest
  end.

(** The white space at the start of [s] left out. *)
Fixpoint drop_spaces (s : string) : string :=
  match s with
  | String a s' => if is_space a then drop_spaces s' else s
  | EmptyString => EmptyString
  end.

(** [line.replace(/^data:\s*/, '')] *)
Definition strip_data (line : string) : string :=
  if starts "data:" line then drop_spaces (drop 5 line) else line.

(** What the [for] loop makes of a line.  [JSON_parse payload] stands for
    [const { delta, error } = JSON.parse(payload)]: the two fields, or
    [None] when this throws. *)
Definition classify (JSON_parse : string -> option (field * field))
    (line : string) : Line :=
  if negb (starts "data:" line) then NotData
  else
    let payload := strip_data line in
    if String.eqb payload "[DONE]" then DoneLine
    else
      match JSON_parse payload with
      | Some (delta, error) => Payload delta error
      | None => Malformed
      end.

(** The lines of the reads, as the loop tells them apart. *)
Definition lines_read (JSON_parse : string -> option (field * field))
    (values : list string) : list (list Line) :=
  map (map (classify JSON_parse)) (cut_reads EmptyString values).

End Wire.

(** ** What is shown (lines 233 to 297 of the page) *)

Module View.

Import Str Page Home.

(** A row of the conversation: the letter of the avatar, the segments of
    the bubble, think segments being shown folded, and the text shown
    as it is after them, if any. *)
Record Row : Type := mkRow {
  avatar : string;
  segments : option (list Segment);
  rawTail : option string
}.

Definition is_assistant (r : Role) : bool :=
  match r with assistant => true | user => false end.

Definition row (st : State) (i : nat) (m : Message) : Row :=
  let isLastAI :=
    (i =? List.length (messages st) - 1) && is_assistant (role m) in
  let content := if isLastAI then renderedContent st else Home.content m in
  mkRow (if is_assistant (role m) then "L" else "Y")
        (splitThinkBlocks content)
        (if isLastAI && negb (String.eqb (fullContent st) (renderedContent st))
         then Some (drop (length (renderedContent st)) (fullContent st))
         else None).

Fixpoint rows_from (st : State) (i : nat) (ms : list Message) : list Row :=
  match ms with
  | [] => []
  | m :: ms' => row st i m :: rows_from st (S i) ms'
  end.

(** [messages.map((m, i) => ...)] *)
Definition rows (st : State) : list Row := rows_from st 0 (messages st).


End View.

(** ** The code blocks (lines 79 to 120 of the page) *)

Module CodeBlock.

Import Str.

(** [String(children).replace(/\n$/, '')] *)
Fixpoint code (children : string) : string :=
  match children with
  | EmptyString => EmptyString
  | String a s =>
      if Wire.is_LF a && is_empty s then EmptyString else String a (code s)
  end.

(** The state [copied], the reference [timer], and the timeouts of the
    window that have been set and have neither fired nor been cleared;
    [fresh] is the identifier the next [setTimeout] returns, never 0. *)
Record State : Type := mkState {
  copied : bool;
  timer : option nat;
  pending : list nat;
  fresh : nat
}.

Definition initial : State := mkState false None [] 1.

Inductive Event : Type :=
| written_to_clipboard     (* [writeText] has resolved in [handleCopy] *)
| clipboard_refused        (* [writeText] has rejected *)
| timeout (id : nat).      (* the timeout [id] fires *)

Definition clearTimeout (id : nat) (pending : list nat) : list nat :=
  filter (fun i => negb (i =? id)) pending.

Definition step (s : State) (e : Event) : State :=
  match e with
  | written_to_clipboard =>
      let pending1 :=
        match timer s with
        | Some id => if id =? 0 then pending s else clearTimeout id (pending s)
        | None => pending s
        end in
      mkState true (Some (fresh s)) (fresh s :: pending1) (S (fresh s))
  | clipboard_refused => s
  | timeout id =>
      if existsb (Nat.eqb id) (pending s)
      then mkState false (timer s) (clearTimeout id (pending s)) (fresh s)
      else s
  end.

Definition run (events : list Event) : State := fold_left step events initial.

End CodeBlock.

(** ** More words for what the page and the relay do *)

Module Spec2.

Import Str RegExp Page Home Relay Spec Wire.

(** The chunks one after the other. *)
Fixpoint join (values : list string) : string :=
  match values with
  | [] => EmptyString
  | v :: rest => v ++ join rest
  end.

(** The frame of a wire event without its two line feeds. *)
Definition data_line (e : WireEvent) : string :=
  match e with
  | Delta text => "data: " ++ JSON_stringify_obj "delta" text
  | Done => "data: [DONE]"
  | Error message => "data: " ++ JSON_stringify_obj "error" message
  end.

(** [JSON.parse] gives back what [JSON.stringify] was given, for the
    payload of the event [e]. *)
Definition parses_back (JSON_parse : string -> option (field * field))
    (e : WireEvent) : Prop :=
  match e with
  | Delta text =>
      JSON_parse (JSON_stringify_obj "delta" text) = Some (Some text, None)
  | Done => True
  | Error message =>
      JSON_parse (JSON_stringify_obj "error" message) = Some (None, Some message)
  end.

(** No code unit of [s] is [a]. *)
Fixpoint without (a : ascii) (s : string) : bool :=
  match s with
  | EmptyString => true
  | String b s' => negb (Ascii.eqb a b) && without a s'
  end.

(** Neither a backtick nor a dollar sign in [s]. *)
Definition no_delimiter (s : string) : bool := without "`" s && without "$" s.

(** A line that stops the loop: the sentinel, an error, or a payload that
    cannot be parsed. *)
Definition stops (l : Line) : bool :=
  match l with
  | NotData => false
  | DoneLine => true
  | Payload _ error => field_truthy error
  | Malformed => true
  end.

(** The lines up to the first one that stops the loop, this one
    included. *)
Fixpoint handled (lines : list Line) : list Line :=
  match lines with
  | [] => []
  | l :: rest => if stops l then [l] else l :: handled rest
  end.

(** The text a delta adds to the buffer. *)
Definition delta_text (l : Line) : string :=
  match l with
  | Payload delta _ => plus EmptyString delta
  | _ => EmptyString
  end.

(** What the deltas of [lines] add to the buffer, up to the line that
    stops the loop. *)
Fixpoint streamed (lines : list Line) : string :=
  match lines with
  | [] => EmptyString
  | l :: rest => if stops l then EmptyString else delta_text l ++ streamed rest
  end.

(** The first line that stops the loop, if any. *)
Fixpoint stopper (lines : list Line) : option Line :=
  match lines with
  | [] => None
  | l :: rest => if stops l then Some l else stopper rest
  end.

(** The segments as the rule of the first opening tag and of the first
    closing tag after it gives them. *)
Inductive segmented : string -> list Segment -> Prop :=
| segmented_end md :
    unterminated md = true -> segmented md (plain md)
| segmented_region pre o body c rest segs :
    is_open_tag o = true -> is_close_tag c = true ->
    occurs "<think>" (lower (pre ++ take 6 o)) = false ->
    occurs "</think>" (lower (body ++ take 7 c)) = false ->
    segmented rest segs ->
    segmented (pre ++ o ++ body ++ c ++ rest)
              (plain pre ++ mkSegment body true :: segs).

(** No two plain segments side by side. *)
Fixpoint plain_apart (segs : list Segment) : bool :=
  match segs with
  | seg1 :: ((seg2 :: _) as rest) =>
      (isThink seg1 || isThink seg2) && plain_apart rest
  | _ => true
  end.

(** No code unit of [s] is below 32. *)
Fixpoint no_control (s : string) : bool :=
  match s with
  | EmptyString => true
  | String a s' => (32 <=? nat_of_ascii a) && no_control s'
  end.

(** The reply a turn leaves in the history for the lines it was sent: the
    text of the error that stopped it, or the text its deltas have added. *)
Definition reply_of (lines : list Line) : string :=
  match stopper lines with
  | Some (Payload _ (Some e)) => e
  | _ => streamed lines
  end.

(** The provider failed. *)
Definition failed (up : Upstream) : bool :=
  match up with CreateRejects => true | Stream _ throws => throws end.

(** The effects that follow the call to the provider: writes, the log of
    an error, the end of the response. *)
Definition after_create (e : Effect) : bool :=
  match e with write _ | console_error | end_ => true | _ => false end.

Definition is_end (e : Effect) : bool :=
  match e with end_ => true | _ => false end.

Definition is_log (e : Effect) : bool :=
  match e with console_error => true | _ => false end.

(** What the provider has said: the texts of the parts of its stream, one
    after the other. *)
Fixpoint said (parts : list (option string)) : string :=
  match parts with
  | [] => EmptyString
  | Some text :: rest => text ++ said rest
  | None :: rest => said rest
  end.

End Spec2.

(** ** More notions used in the proofs *)

Module Aux2.

Import Str Page Home Relay Spec2 View.

Definition hex_value (a : ascii) : nat :=
  let n := nat_of_ascii a in
  if n <? 58 then n - 48 else n - 87.

(** One code unit read back from the start of a quoted text; nothing for a
    quote that is not escaped. *)
Definition unquote_unit (s : string) : option (ascii * string) :=
  match s with
  | EmptyString => None
  | String a rest =>
      if nat_of_ascii a =? 34 then None
      else if nat_of_ascii a =? 92 then
        match rest with
        | EmptyString => None
        | String c rest' =>
            let n := nat_of_ascii c in
            if n =? 98 then Some (ascii_of_nat 8, rest')
            else if n =? 116 then Some (ascii_of_nat 9, rest')
            else if n =? 110 then Some (ascii_of_nat 10, rest')
            else if n =? 102 then Some (ascii_of_nat 12, rest')
            else if n =? 114 then Some (ascii_of_nat 13, rest')
            else if n =? 117 then
              match rest' with
              | String _ (String _ (String h1 (String h2 rest''))) =>
                  Some (ascii_of_nat (16 * hex_value h1 + hex_value h2), rest'')
              | _ => None
              end
            else Some (c, rest')
        end
      else Some (a, rest)
  end.

(** What the loop over the lines leaves: the buffer grown by the deltas,
    the reply of the history, and the way the loop is left. *)
Definition after_lines (lines : list Line) (old : list Message) (u : Message)
    (c : string) (st' : State) (ex : Exit) (st : State) : Prop :=
  fullContent st' = c ++ streamed lines /\
  messages st' =
    (old ++ [u; mkMessage assistant
                  match stopper lines with
                  | Some (Payload _ (Some e)) => e
                  | _ => c ++ streamed lines
                  end])%list /\
  ex = match stopper lines with
       | None => Next
       | Some Malformed => Thrown
       | Some _ => Finished
       end /\
  loading st' = loading st /\ input st' = input st.

(** The row of a message shown as the history holds it. *)
Definition stored_row (m : Message) : Row :=
  mkRow (if is_assistant (role m) then "L" else "Y")
        (splitThinkBlocks (content m)) None.

(** Every code unit of [p] is [c]. *)
Fixpoint only (c : ascii) (p : string) : bool :=
  match p with
  | EmptyString => true
  | String b p' => Ascii.eqb c b && only c p'
  end.

(** The copy button is in order: no timeout is pending and the label is
    [Copy], or the one timeout pending is that of the last copy and the
    label is [Copied!]. *)
Definition copy_ok (s : CodeBlock.State) : Prop :=
  0 < CodeBlock.fresh s /\
  match CodeBlock.pending s return Prop with
  | [] => CodeBlock.copied s = false
  | [i] =>
      CodeBlock.copied s = true /\ CodeBlock.timer s = Some i /\
      0 < i /\ i < CodeBlock.fresh s
  | _ => False
  end.

End Aux2.

(** * Proofs *)

(** ** Strings *)

Module StrFacts.

Import Str.

(** A comparison of numbers whose outcome [lia] knows. *)
Ltac settle_test t b :=
  replace t with b
    by (symmetry;
        first [ apply Nat.ltb_lt | apply Nat.ltb_ge
              | apply Nat.eqb_eq | apply Nat.eqb_neq ]; lia).

Lemma append_nil_r (s : string) : s ++ EmptyString = s.
Proof. induction s; simpl; congruence. Qed.

Lemma append_assoc (a b c : string) : (a ++ b) ++ c = a ++ (b ++ c).
Proof. induction a; simpl; congruence. Qed.

Lemma length_append (a b : string) : length (a ++ b) = length a + length b.
Proof. induction a; simpl; congruence. Qed.

Lemma length_zero (s : string) : length s = 0 -> s = EmptyString.
Proof. destruct s; simpl; [reflexivity | discriminate]. Qed.

Lemma is_empty_length (s : string) : is_empty s = (length s =? 0).
Proof. destruct s; reflexivity. Qed.

Lemma drop_0 (s : string) : drop 0 s = s.
Proof. reflexivity. Qed.

Lemma drop_nil (n : nat) : drop n EmptyString = EmptyString.
Proof. destruct n; reflexivity. Qed.

Lemma length_drop (n : nat) (s : string) : length (drop n s) = length s - n.
Proof.
  revert s; induction n as [|n IH]; intros s; simpl.
  - lia.
  - destruct s as [|a s]; simpl; [reflexivity | apply IH].
Qed.

Lemma length_take (n : nat) (s : string) :
  length (take n s) = Nat.min n (length s).
Proof.
  revert s; induction n as [|n IH]; intros [|a s]; simpl; auto.
Qed.

Lemma take_drop (n : nat) (s : string) : take n s ++ drop n s = s.
Proof.
  revert s; induction n as [|n IH]; intros [|a s]; simpl; auto.
  now rewrite IH.
Qed.

Lemma drop_app (a b : string) : drop (length a) (a ++ b) = b.
Proof. induction a; simpl; auto. Qed.

Lemma drop_app_plus (a b : string) (n : nat) :
  drop (length a + n) (a ++ b) = drop n b.
Proof. induction a; simpl; auto. Qed.

Lemma take_app (a b : string) : take (length a) (a ++ b) = a.
Proof. induction a; simpl; congruence. Qed.

Lemma take_app_plus (a b : string) (n : nat) :
  take (length a + n) (a ++ b) = a ++ take n b.
Proof. induction a; simpl; congruence. Qed.

Lemma drop_drop (n m : nat) (s : string) : drop n (drop m s) = drop (m + n) s.
Proof.
  revert s; induction m as [|m IH]; intros s; simpl.
  - reflexivity.
  - destruct s as [|a s]; [apply drop_nil | apply IH].
Qed.

End StrFacts.

(** ** Texts written in a string *)

Module OccursFacts.

Import Str StrFacts Spec.

Lemma starts_app p x w : starts p x = true -> starts p (x ++ w) = true.
Proof.
  revert x; induction p as [|c p IH]; intros [|a x] H; simpl in *;
    try reflexivity; try discriminate.
  apply andb_prop in H as [-> H]. now apply IH.
Qed.

Lemma starts_length p x : starts p x = true -> length p <= length x.
Proof.
  revert x; induction p as [|c p IH]; intros [|a x] H; simpl in *;
    try lia; try discriminate.
  apply andb_prop in H as [_ H]. apply IH in H. lia.
Qed.

Lemma starts_self_app p w : starts p (p ++ w) = true.
Proof.
  induction p as [|c p IH]; simpl; [reflexivity|].
  now rewrite Ascii.eqb_refl.
Qed.

Lemma occurs_unfold p s :
  occurs p s =
  starts p s || match s with
                | EmptyString => false
                | String _ s' => occurs p s'
                end.
Proof. destruct s; reflexivity. Qed.

Lemma occurs_short p s : length s < length p -> occurs p s = false.
Proof.
  induction s as [|ch s IH]; intros H; rewrite occurs_unfold.
  - destruct (starts p EmptyString) eqn:E; [|reflexivity].
    apply starts_length in E. lia.
  - destruct (starts p (String ch s)) eqn:E.
    + apply starts_length in E. lia.
    + apply IH. simpl in H. lia.
Qed.

Lemma occurs_here p x : starts p x = true -> occurs p x = true.
Proof. intros H. rewrite occurs_unfold, H. reflexivity. Qed.

Lemma occurs_app_r p a b : occurs p b = true -> occurs p (a ++ b) = true.
Proof.
  intros H. induction a as [|ch a IH]; [assumption|].
  change (String ch a ++ b) with (String ch (a ++ b)).
  rewrite occurs_unfold, IH. apply orb_true_r.
Qed.

Lemma drop_app_le n (a b : string) :
  n <= length a -> drop n (a ++ b) = drop n a ++ b.
Proof.
  revert a; induction n as [|n IH]; intros a H; [reflexivity|].
  destruct a as [|ch a]; simpl in *; [lia|]. apply IH. lia.
Qed.

Lemma take_app_le n (a b : string) :
  n <= length a -> take n (a ++ b) = take n a.
Proof.
  revert a; induction n as [|n IH]; intros a H.
  - destruct a, b; reflexivity.
  - destruct a as [|ch a]; simpl in *; [lia|].
    rewrite IH; [reflexivity | lia].
Qed.

Lemma starts_app_long p x w :
  length p <= length x -> starts p (x ++ w) = starts p x.
Proof.
  revert x; induction p as [|c p IH]; intros [|a x] H; simpl in *;
    try reflexivity; try lia.
  rewrite IH; [reflexivity | lia].
Qed.

End OccursFacts.

(** ** The matcher *)

Module RegExpFacts.

Import Str StrFacts RegExp Spec Aux.

Lemma matcher_literal ic p x cap k :
  matcher ic (literal p) x cap k =
  match strip ic p x with Some y => k y cap | None => None end.
Proof.
  revert x; induction p as [|c p IH]; intros x; simpl.
  - reflexivity.
  - destruct x as [|a x]; [reflexivity|].
    destruct (char_eq ic c a); [apply IH | reflexivity].
Qed.

Lemma matcher_cat ic r1 r2 x cap k :
  matcher ic (Cat r1 r2) x cap k =
  matcher ic r1 x cap (fun y cap' => matcher ic r2 y cap' k).
Proof. reflexivity. Qed.

Lemma matcher_lazy_any ic x cap k :
  matcher ic (LazyStar AnyChar) x cap k = first_suffix (fun y => k y cap) x.
Proof.
  induction x as [|a x IH].
  - simpl. destruct (k EmptyString cap); reflexivity.
  - simpl. destruct (k (String a x) cap); [reflexivity|].
    settle_test (length x <? S (length x)) true.
    exact IH.
Qed.

Lemma matcher_group_lazy_any ic x cap k :
  matcher ic (Group (LazyStar AnyChar)) x cap k =
  first_suffix (fun y => k y (Some (take (length x - length y) x))) x.
Proof.
  change (matcher ic (Group (LazyStar AnyChar)) x cap k)
    with (matcher ic (LazyStar AnyChar) x cap
            (fun y _ => k y (Some (take (length x - length y) x)))).
  apply matcher_lazy_any.
Qed.

(** *** Reading a literal *)

Lemma strip_Some ic p x y :
  strip ic p x = Some y ->
  exists o, x = o ++ y /\ same_text ic p o = true.
Proof.
  revert x; induction p as [|c p IH]; intros x H; simpl in H.
  - injection H as <-. exists EmptyString. split; reflexivity.
  - destruct x as [|a x]; [discriminate|].
    destruct (char_eq ic c a) eqn:E; [|discriminate].
    destruct (IH _ H) as (o & -> & Ho).
    exists (String a o). simpl. now rewrite E, Ho.
Qed.

Lemma strip_app ic p o y :
  same_text ic p o = true -> strip ic p (o ++ y) = Some y.
Proof.
  revert o; induction p as [|c p IH]; intros [|a o] H; simpl in *;
    try discriminate.
  - reflexivity.
  - apply andb_prop in H as [-> H]. now apply IH.
Qed.

Lemma same_text_length ic p o :
  same_text ic p o = true -> length o = length p.
Proof.
  revert o; induction p as [|c p IH]; intros [|a o] H; simpl in *;
    try discriminate.
  - reflexivity.
  - apply andb_prop in H as [_ H]. f_equal. now apply IH.
Qed.

Lemma strip_length ic p x y :
  strip ic p x = Some y -> length x = length p + length y.
Proof.
  intros H. destruct (strip_Some _ _ _ _ H) as (o & -> & Ho).
  rewrite length_append, (same_text_length _ _ _ Ho). reflexivity.
Qed.

Lemma same_text_exact p o : same_text false p o = true -> o = p.
Proof.
  revert o; induction p as [|c p IH]; intros [|a o] H; simpl in *;
    try discriminate.
  - reflexivity.
  - apply andb_prop in H as [E H]. apply Ascii.eqb_eq in E.
    subst a. f_equal. now apply IH.
Qed.

Lemma starts_strip d s :
  starts d s = match strip false d s with Some _ => true | None => false end.
Proof.
  revert s; induction d as [|c d IH]; intros s; simpl.
  - reflexivity.
  - destruct s as [|a s]; [reflexivity|].
    destruct (Ascii.eqb c a); simpl; [apply IH | reflexivity].
Qed.

(** *** The scan for the first match *)

Lemma search_unfold re s i :
  search re s i =
  match matcher (ignoreCase re) (source re) s None
          (fun y cap => Some (y, cap)) with
  | Some (y, cap) => Some (mkMatch i (take (length s - length y) s) cap)
  | None =>
      match s with
      | EmptyString => None
      | String _ s' => search re s' (S i)
      end
  end.
Proof. destruct s; reflexivity. Qed.

Lemma search_bounds re s i m :
  search re s i = Some m ->
  i <= index m /\ index m + length (whole m) <= i + length s.
Proof.
  revert i; induction s as [|a s IH]; intros i; simpl.
  - destruct (matcher _ _ _ _ _) as [[y cap]|]; [|discriminate].
    intros H; injection H as <-; simpl. lia.
  - destruct (matcher _ _ _ _ _) as [[y cap]|].
    + intros H; injection H as <-; simpl.
      pose proof (length_take (S (length s) - length y) (String a s)) as L.
      simpl in L. simpl. lia.
    + intros H. apply IH in H. lia.
Qed.

Lemma exec_bounds re s li m li' :
  exec re s li = (Some m, li') ->
  li <= index m /\ li' = index m + length (whole m) /\ li' <= length s.
Proof.
  unfold exec. destruct (length s <? li) eqn:E; [discriminate|].
  apply Nat.ltb_ge in E.
  destruct (search re (drop li s) li) as [m'|] eqn:Hs; [|discriminate].
  intros H; injection H as <- <-.
  apply search_bounds in Hs. rewrite length_drop in Hs. lia.
Qed.

Lemma exec_beyond re s li : length s < li -> exec re s li = (None, 0).
Proof.
  intros H. unfold exec. apply Nat.ltb_lt in H. now rewrite H.
Qed.

(** The rounds given to the loop of [String_match] are never used up: any
    two numbers of rounds from [length s + 2 - lastIndex] on give the same
    list. *)
Lemma match_rounds_enough re s n1 :
  forall n2 li,
    length s + 2 - li <= n1 -> length s + 2 - li <= n2 ->
    match_rounds n1 re s li = match_rounds n2 re s li.
Proof.
  induction n1 as [|n1 IH]; intros n2 li H1 H2.
  - destruct n2 as [|n2]; [reflexivity|].
    simpl. rewrite exec_beyond by lia. reflexivity.
  - destruct n2 as [|n2].
    + simpl. rewrite exec_beyond by lia. reflexivity.
    + simpl. destruct (exec re s li) as [[m|] li'] eqn:E; [|reflexivity].
      apply exec_bounds in E as (Hi & -> & Hl).
      f_equal. apply IH.
      * rewrite is_empty_length.
        destruct (length (whole m) =? 0) eqn:Z;
          [apply Nat.eqb_eq in Z | apply Nat.eqb_neq in Z]; lia.
      * rewrite is_empty_length.
        destruct (length (whole m) =? 0) eqn:Z;
          [apply Nat.eqb_eq in Z | apply Nat.eqb_neq in Z]; lia.
Qed.

End RegExpFacts.

(** ** The safety predicate *)

Module BalancedFacts.

Import Str StrFacts OccursFacts RegExp Spec Aux RegExpFacts Page.

Lemma occurrences_skip d k t :
  occurrences_from d k t = occurrences_from d 0 (drop k t).
Proof.
  revert k; induction t as [|a t IH]; intros k.
  - now rewrite drop_nil.
  - destruct k as [|k]; [reflexivity|]. simpl. apply IH.
Qed.

Lemma occurrences_self d rest :
  d <> EmptyString ->
  occurrences_from d 0 (d ++ rest) = S (occurrences_from d 0 rest).
Proof.
  intros Hd. destruct d as [|c d']; [congruence|].
  pose proof (starts_self_app (String c d') rest) as St.
  change (String c d' ++ rest) with (String c (d' ++ rest)) in *.
  cbn [occurrences_from]. rewrite St, occurrences_skip.
  replace (length (String c d') - 1) with (length d') by (simpl; lia).
  rewrite drop_app. reflexivity.
Qed.

Section Delimiter.

(** A delimiter [d], not empty, searched as it is written. *)
Variable d : string.
Hypothesis d_not_empty : d <> EmptyString.

Let re : RegExp := mkRegExp (literal d) false.

Lemma search_literal_step s i :
  search re s i =
  match strip false d s with
  | Some y => Some (mkMatch i d None)
  | None =>
      match s with
      | EmptyString => None
      | String _ s' => search re s' (S i)
      end
  end.
Proof.
  rewrite search_unfold. simpl source. simpl ignoreCase.
  rewrite matcher_literal.
  destruct (strip false d s) as [y|] eqn:E; [|reflexivity].
  destruct (strip_Some _ _ _ _ E) as (o & Hs & Ho).
  apply same_text_exact in Ho. subst o s.
  rewrite length_append.
  replace (length d + length y - length y) with (length d) by lia.
  now rewrite take_app.
Qed.

Lemma search_literal_None s i :
  search re s i = None -> occurrences_from d 0 s = 0.
Proof.
  revert i; induction s as [|a s IH]; intros i H; [reflexivity|].
  rewrite search_literal_step in H.
  simpl. rewrite starts_strip.
  destruct (strip false d (String a s)); [discriminate|].
  eapply IH, H.
Qed.

Lemma search_literal_Some s i m :
  search re s i = Some m ->
  exists j,
    index m = i + j /\ whole m = d /\ j + length d <= length s /\
    occurrences_from d 0 s = S (occurrences_from d 0 (drop (j + length d) s)).
Proof.
  revert i; induction s as [|a s IH]; intros i H;
    rewrite search_literal_step in H.
  - destruct (strip false d EmptyString) as [y|] eqn:E; [|discriminate].
    apply strip_length in E. simpl in E.
    destruct d; [congruence | simpl in E; lia].
  - destruct (strip false d (String a s)) as [y|] eqn:E.
    + injection H as <-. exists 0. simpl index. simpl whole.
      pose proof (strip_length _ _ _ _ E) as L.
      destruct (strip_Some _ _ _ _ E) as (o & Hs & Ho).
      apply same_text_exact in Ho. subst o.
      repeat split; [lia | simpl in *; lia |].
      simpl occurrences_from. rewrite starts_strip, E.
      rewrite occurrences_skip. f_equal. f_equal.
      destruct d as [|c d']; [congruence|].
      simpl in Hs. injection Hs as _ ->.
      simpl. rewrite Nat.sub_0_r. reflexivity.
    + destruct (IH _ H) as (j & Hi & Hw & Hl & Ho).
      exists (S j). repeat split; [lia | assumption | simpl; lia |].
      simpl occurrences_from. rewrite starts_strip, E. exact Ho.
Qed.

(** The count, said without the scan: no occurrence, none counted; a
    first occurrence, one more than in what follows it. *)
Lemma occurrences_none t : occurs d t = false -> occurrences d t = 0.
Proof.
  unfold occurrences. induction t as [|a t IH]; [reflexivity|].
  rewrite occurs_unfold. intros H. apply orb_false_elim in H as [H1 H2].
  simpl. rewrite H1. now apply IH.
Qed.

Lemma occurrences_first pre rest :
  occurs d (pre ++ take (length d - 1) d) = false ->
  occurrences d (pre ++ d ++ rest) = S (occurrences d rest).
Proof.
  unfold occurrences. induction pre as [|a pre IH]; intros H.
  - change (EmptyString ++ d ++ rest) with (d ++ rest).
    apply occurrences_self, d_not_empty.
  - change (String a pre ++ ?x) with (String a (pre ++ x)) in *.
    rewrite occurs_unfold in H. apply orb_false_elim in H as [H1 H2].
    simpl occurrences_from.
    replace (starts d (String a (pre ++ d ++ rest))) with false.
    + now apply IH.
    + rewrite <- H1.
      assert (0 < length d) by (destruct d; [congruence | simpl; lia]).
      replace (d ++ rest)
        with (take (length d - 1) d ++ drop (length d - 1) d ++ rest)
        by (now rewrite <- append_assoc, take_drop).
      rewrite <- append_assoc.
      change (String a ((pre ++ take (length d - 1) d) ++ ?w))
        with (String a (pre ++ take (length d - 1) d) ++ w).
      rewrite starts_app_long; [reflexivity|].
      simpl. rewrite length_append, length_take. lia.
Qed.

Lemma match_rounds_count t n :
  forall li,
    li <= length t -> length t - li < n ->
    List.length (match_rounds n re t li) = occurrences d (drop li t).
Proof.
  induction n as [|n IH]; intros li Hli Hn; [lia|].
  simpl. unfold exec.
  settle_test (length t <? li) false.
  destruct (search re (drop li t) li) as [m|] eqn:E.
  - destruct (search_literal_Some _ _ _ E) as (j & Hi & Hw & Hl & Ho).
    rewrite length_drop in Hl.
    unfold occurrences. rewrite Ho, drop_drop. simpl. f_equal.
    rewrite Hw, Hi.
    assert (0 < length d) as Hd by (destruct d; [congruence | simpl; lia]).
    rewrite is_empty_length.
    settle_test (length d =? 0) false.
    rewrite IH by lia. unfold occurrences. f_equal. f_equal. lia.
  - apply search_literal_None in E. unfold occurrences. now rewrite E.
Qed.

(** [(t.match(re) || []).length] is the number of occurrences of [d]. *)
Lemma match_count_occurrences t :
  match_count (String_match t re) = occurrences d t.
Proof.
  unfold String_match.
  pose proof (match_rounds_count t (length t + 2) 0) as H.
  rewrite drop_0 in H. rewrite <- H by lia.
  destruct (match_rounds (length t + 2) re t 0); reflexivity.
Qed.

End Delimiter.

End BalancedFacts.

Lemma mod2_Even (n : nat) : n mod 2 = 0 <-> Nat.Even n.
Proof.
  split.
  - intros H. exists (n / 2). pose proof (Nat.div_mod_eq n 2). lia.
  - intros [m ->]. rewrite Nat.mul_comm. apply Nat.Div0.mod_mul.
Qed.

(** C1.  For every text [T], [isBalanced T] holds if and only if the
    number of occurrences of the three-backtick delimiter in [T] is even
    and the number of occurrences of the double-dollar delimiter in [T] is
    even (occurrences read from left to right, none overlapping the one
    before it). *)
Theorem isBalanced_iff_even_counts (T : string) :
  Page.isBalanced T = true <->
  Nat.Even (Spec.fence_count T) /\ Nat.Even (Spec.math_count T).
Proof.
  unfold Page.isBalanced, Page.fence_regex, Page.math_regex.
  rewrite !BalancedFacts.match_count_occurrences by discriminate.
  fold (Spec.fence_count T). fold (Spec.math_count T).
  rewrite andb_true_iff, !Nat.eqb_eq, !mod2_Even. reflexivity.
Qed.

(** ** The think pattern *)

Module ThinkFacts.

Import Str StrFacts OccursFacts RegExp Spec Aux RegExpFacts Page.

(** *** Letter case

    On the code units of the think-tags, matching under the [i] flag is
    equality after lower-casing [A]..[Z]. *)

Lemma char_eq_lower c a :
  tag_unit c -> char_eq true c a = Ascii.eqb c (lower_unit a).
Proof.
  unfold tag_unit. simpl. intros H.
  repeat (destruct H as [<-|H];
          [destruct a as [[] [] [] [] [] [] [] []]; reflexivity|]).
  destruct H.
Qed.

Lemma tag_units_inv c p : tag_units (String c p) -> tag_unit c /\ tag_units p.
Proof.
  intros H. split.
  - apply H. now left.
  - intros c' Hc. apply H. now right.
Qed.

Lemma open_tag_units : tag_units "<think>".
Proof. intros c H. unfold tag_unit. simpl in *. tauto. Qed.

Lemma close_tag_units : tag_units "</think>".
Proof. intros c H. exact H. Qed.

Lemma same_text_lower p o :
  tag_units p -> same_text true p o = String.eqb (lower o) p.
Proof.
  revert o; induction p as [|c p IH]; intros [|a o] H;
    cbn [same_text lower String.eqb]; try reflexivity.
  apply tag_units_inv in H as [Hc Hp].
  rewrite (char_eq_lower c a Hc), (IH o Hp), (Ascii.eqb_sym c).
  reflexivity.
Qed.

Lemma strip_lower p x :
  tag_units p ->
  match strip true p x with Some _ => true | None => false end
  = starts p (lower x).
Proof.
  revert x; induction p as [|c p IH]; intros x H; [reflexivity|].
  apply tag_units_inv in H as [Hc Hp].
  destruct x as [|a x]; cbn [strip lower starts]; [reflexivity|].
  rewrite (char_eq_lower c a Hc).
  destruct (Ascii.eqb c (lower_unit a)); simpl; [now apply IH | reflexivity].
Qed.

Lemma reads_in_lower p s :
  tag_units p -> reads_in true p s = occurs p (lower s).
Proof.
  intros H. induction s as [|a s IH].
  - pose proof (strip_lower p EmptyString H) as E. cbn [lower] in E.
    cbn [reads_in lower occurs]. rewrite <- E.
    destruct (strip true p EmptyString); reflexivity.
  - pose proof (strip_lower p (String a s) H) as E. cbn [lower] in E.
    cbn [reads_in lower occurs]. rewrite <- E, <- IH.
    destruct (strip true p (String a s)); reflexivity.
Qed.

Lemma open_tag_reads o : is_open_tag o = same_text true "<think>" o.
Proof. symmetry. apply same_text_lower, open_tag_units. Qed.

Lemma close_tag_reads c : is_close_tag c = same_text true "</think>" c.
Proof. symmetry. apply same_text_lower, close_tag_units. Qed.

(** *** The ends of a string *)

Lemma first_suffix_ext {A : Type} (k1 k2 : string -> option A) x :
  (forall y, k1 y = k2 y) -> first_suffix k1 x = first_suffix k2 x.
Proof.
  intros H. induction x as [|a x IH]; simpl; rewrite H.
  - reflexivity.
  - now rewrite IH.
Qed.

(** The end found is an end of the string, and it is accepted. *)
Lemma first_suffix_Some {A : Type} (k : string -> option A) x r :
  first_suffix k x = Some r ->
  exists a b, x = a ++ b /\ k b = Some r.
Proof.
  induction x as [|ch x IH]; simpl.
  - destruct (k EmptyString) eqn:E; [|discriminate].
    intros H; injection H as <-. exists EmptyString, EmptyString. now split.
  - destruct (k (String ch x)) eqn:E.
    + intros H; injection H as <-. exists EmptyString, (String ch x).
      now split.
    + intros H. destruct (IH H) as (a & b & -> & Hk).
      exists (String ch a), b. now split.
Qed.

Lemma first_suffix_skip {A : Type} (k : string -> option A) a b :
  (forall a1 a2, a = a1 ++ a2 -> a2 <> EmptyString -> k (a2 ++ b) = None) ->
  first_suffix k (a ++ b) = first_suffix k b.
Proof.
  induction a as [|ch a IH]; intros H; [reflexivity|].
  assert (k (String ch (a ++ b)) = None) as E
    by (apply (H EmptyString (String ch a)); [reflexivity | discriminate]).
  simpl. rewrite E.
  apply IH. intros a1 a2 -> Hne. apply (H (String ch a1) a2); auto.
Qed.

Lemma first_suffix_None {A : Type} (k : string -> option A) x :
  (forall a b, x = a ++ b -> k b = None) -> first_suffix k x = None.
Proof.
  induction x as [|ch x IH]; intros H; simpl.
  - now rewrite (H EmptyString EmptyString).
  - rewrite (H EmptyString (String ch x)) by reflexivity.
    apply IH. intros a b ->. apply (H (String ch a) b). reflexivity.
Qed.

Lemma first_suffix_here {A : Type} (k : string -> option A) x r :
  k x = Some r -> first_suffix k x = Some r.
Proof. intros H. destruct x; simpl; now rewrite H. Qed.

(** *** What the think pattern reads *)

Lemma think_matcher s :
  matcher true (source think_regex) s None (fun y cap => Some (y, cap)) =
  match strip true "<think>" s with
  | Some y0 => close_after y0
  | None => None
  end.
Proof.
  change (source think_regex)
    with (Cat (literal "<think>")
              (Cat (Group (LazyStar AnyChar)) (literal "</think>"))).
  rewrite matcher_cat, matcher_literal.
  destruct (strip true "<think>" s) as [y0|]; [|reflexivity].
  rewrite matcher_cat, matcher_group_lazy_any. unfold close_after.
  apply first_suffix_ext. intros y. now rewrite matcher_literal.
Qed.

Lemma search_think_unfold s i :
  search think_regex s i =
  match match strip true "<think>" s with
        | Some y0 => close_after y0
        | None => None
        end with
  | Some (y, cap) => Some (mkMatch i (take (length s - length y) s) cap)
  | None =>
      match s with
      | EmptyString => None
      | String _ s' => search think_regex s' (S i)
      end
  end.
Proof.
  rewrite search_unfold.
  change (ignoreCase think_regex) with true.
  rewrite think_matcher. reflexivity.
Qed.

Lemma close_after_Some y0 z cap :
  close_after y0 = Some (z, cap) ->
  exists body c,
    y0 = body ++ c ++ z /\ same_text true "</think>" c = true /\ cap = Some body.
Proof.
  unfold close_after. intros H.
  apply first_suffix_Some in H as (a & b & -> & H).
  destruct (strip true "</think>" b) as [z'|] eqn:E; [|discriminate].
  injection H as <- <-.
  destruct (strip_Some _ _ _ _ E) as (c & -> & Hc).
  exists a, c. repeat split; [assumption|].
  rewrite length_append.
  replace (length a + length (c ++ z') - length (c ++ z')) with (length a)
    by lia.
  now rewrite take_app.
Qed.

(** A match of the think pattern: an opening tag, a body, a closing tag,
    the body being group 1. *)
Lemma think_match_shape s i m :
  search think_regex s i = Some m ->
  exists pre o body c rest,
    s = pre ++ o ++ body ++ c ++ rest /\
    same_text true "<think>" o = true /\ same_text true "</think>" c = true /\
    index m = i + length pre /\
    whole m = o ++ body ++ c /\
    group1 m = Some body.
Proof.
  revert i m; induction s as [|ch s IH]; intros i m.
  - rewrite search_think_unfold. simpl. discriminate.
  - assert (forall m', search think_regex s (S i) = Some m' ->
              exists pre o body c rest,
                String ch s = pre ++ o ++ body ++ c ++ rest /\
                same_text true "<think>" o = true /\ same_text true "</think>" c = true /\
                index m' = i + length pre /\
                whole m' = o ++ body ++ c /\
                group1 m' = Some body) as Later.
    { intros m' H.
      destruct (IH _ _ H) as (pre & o & body & c & rest & E' & Ho & Hc & Hi & R).
      exists (String ch pre), o, body, c, rest. rewrite E'.
      repeat split; try assumption; try tauto. simpl. lia. }
    remember (String ch s) as s0 eqn:Es0.
    rewrite search_think_unfold.
    destruct (strip true "<think>" s0) as [y0|] eqn:E;
      [|subst s0; apply Later].
    destruct (close_after y0) as [[z cap]|] eqn:C; [|subst s0; apply Later].
    intros H; injection H as <-.
    destruct (strip_Some _ _ _ _ E) as (o & Hs & Ho).
    destruct (close_after_Some _ _ _ C) as (body & c & -> & Hc & ->).
    exists EmptyString, o, body, c, z.
    cbn [index whole group1].
    repeat split; try assumption; [simpl; lia|].
    rewrite Hs.
    replace (o ++ body ++ c ++ z) with ((o ++ body ++ c) ++ z)
      by now rewrite !append_assoc.
    rewrite (length_append (o ++ body ++ c)).
    replace (length (o ++ body ++ c) + length z - length z)
      with (length (o ++ body ++ c)) by lia.
    now rewrite take_app.
Qed.

(** *** The loop of the segmenter *)

(** The scan does not depend on where the input starts in the blob. *)
Lemma search_index re s i j :
  search re s (i + j) =
  match search re s i with
  | Some m => Some (mkMatch (index m + j) (whole m) (group1 m))
  | None => None
  end.
Proof.
  revert i; induction s as [|ch s IH]; intros i; simpl.
  - destruct (matcher _ _ _ _ _) as [[y cap]|]; reflexivity.
  - destruct (matcher _ _ _ _ _) as [[y cap]|]; [reflexivity|].
    apply (IH (S i)).
Qed.

Lemma exec_at re md L :
  L <= length md ->
  exec re md L =
  match search re (drop L md) 0 with
  | Some m =>
      (Some (mkMatch (index m + L) (whole m) (group1 m)),
       index m + L + length (whole m))
  | None => (None, 0)
  end.
Proof.
  intros H. unfold exec.
  settle_test (length md <? L) false.
  pose proof (search_index re (drop L md) 0 L) as E.
  rewrite Nat.add_0_l in E. rewrite E.
  destruct (search re (drop L md) 0); reflexivity.
Qed.

Lemma plain_app (s : string) (parts : list Segment) (last : nat) md :
  drop last md = s -> last <= length md ->
  (if last <? length md
   then (parts ++ [mkSegment (drop last md) false])%list
   else parts) = (parts ++ plain s)%list.
Proof.
  intros <- H. unfold plain. rewrite is_empty_length, length_drop.
  destruct (last <? length md) eqn:E.
  - apply Nat.ltb_lt in E.
    settle_test (length md - last =? 0) false.
    reflexivity.
  - apply Nat.ltb_ge in E.
    settle_test (length md - last =? 0) true.
    now rewrite app_nil_r.
Qed.

Lemma plain_slice (pre rest : string) (parts : list Segment) (L : nat) md :
  drop L md = pre ++ rest ->
  (if L <? length pre + L
   then (parts ++ [mkSegment (slice md L (length pre + L)) false])%list
   else parts) = (parts ++ plain pre)%list.
Proof.
  intros H. unfold plain, slice. rewrite H, is_empty_length.
  replace (length pre + L - L) with (length pre) by lia.
  rewrite take_app.
  destruct (L <? length pre + L) eqn:E.
  - apply Nat.ltb_lt in E.
    settle_test (length pre =? 0) false.
    reflexivity.
  - apply Nat.ltb_ge in E.
    settle_test (length pre =? 0) true.
    now rewrite app_nil_r.
Qed.

Lemma rebuilds_plain_app pre tags segs s :
  rebuilds tags segs s -> rebuilds tags (plain pre ++ segs) (pre ++ s).
Proof.
  intros H. unfold plain. destruct pre as [|ch pre]; simpl; [assumption|].
  now apply (rebuilds_plain (String ch pre)).
Qed.

Lemma rebuilds_plain_only s : rebuilds [] (plain s) s.
Proof.
  rewrite <- (append_nil_r s) at 2.
  rewrite <- (app_nil_r (plain s)).
  apply rebuilds_plain_app, rebuilds_nil.
Qed.

Lemma plain_ok_plain s : Forall plain_ok (plain s).
Proof.
  unfold plain. destruct s as [|ch s]; simpl; constructor; [|constructor].
  intros _. simpl. discriminate.
Qed.

(** One round of the loop from a place where the scan finds a match. *)
Lemma think_loop_match fuel md L parts pre o body c rest m :
  L <= length md ->
  drop L md = pre ++ o ++ body ++ c ++ rest ->
  search think_regex (drop L md) 0 = Some m ->
  index m = length pre -> whole m = o ++ body ++ c ->
  group1 m = Some body ->
  think_loop (S fuel) md L L parts =
  think_loop fuel md
    (L + length (pre ++ o ++ body ++ c)) (L + length (pre ++ o ++ body ++ c))
    (parts ++ plain pre ++ [mkSegment body true]).
Proof.
  intros HL Hs Hm Hi Hw Hg. simpl think_loop.
  rewrite exec_at, Hm by assumption.
  cbn [index whole]. unfold capture1. cbn [group1]. rewrite Hi, Hw, Hg.
  rewrite (plain_slice pre (o ++ body ++ c ++ rest)) by assumption.
  rewrite <- app_assoc.
  replace (length pre + L + length (o ++ body ++ c))
    with (L + length (pre ++ o ++ body ++ c))
    by (rewrite (length_append pre); lia).
  reflexivity.
Qed.

(** The segments of the end [s] of a blob: they put [s] back together, the
    plain ones hold some text, and the loop entered at the start of [s]
    adds them to [parts], whatever the blob before [s]. *)
Lemma split_suffix n :
  forall s, length s <= n ->
  exists segs tags,
    rebuilds tags segs s /\ Forall plain_ok segs /\
    forall md L parts fuel,
      drop L md = s -> L <= length md -> length s < fuel ->
      after_loop md (think_loop fuel md L L parts) = Some (parts ++ segs)%list.
Proof.
  induction n as [|n IH]; intros s Hn.
  - assert (s = EmptyString) by (apply length_zero; lia). subst s.
    exists [], [].
    repeat split; [constructor | constructor |].
    intros md L parts [|fuel] Hs HL Hf; [simpl in Hf; lia|].
    simpl think_loop. rewrite exec_at, Hs by assumption. simpl.
    rewrite (plain_app EmptyString) by assumption. reflexivity.
  - destruct (search think_regex s 0) as [m|] eqn:Hm.
    + destruct (think_match_shape _ _ _ Hm)
        as (pre & o & body & c & rest & Hs & Ho & Hc & Hi & Hw & Hg).
      simpl in Hi.
      pose proof (same_text_length _ _ _ Ho) as Lo. simpl in Lo.
      assert (length s = length (pre ++ o ++ body ++ c) + length rest) as Ls.
      { rewrite Hs, !length_append. lia. }
      assert (0 < length (pre ++ o ++ body ++ c)) as Lp.
      { rewrite !length_append. lia. }
      destruct (IH rest) as (segs & tags & Hr & Hk & Hu); [lia|].
      exists (plain pre ++ mkSegment body true :: segs)%list, ((o, c) :: tags).
      repeat split.
      * rewrite Hs. apply rebuilds_plain_app.
        apply rebuilds_think; [now rewrite open_tag_reads
                              | now rewrite close_tag_reads | assumption].
      * apply Forall_app. split; [apply plain_ok_plain|].
        constructor; [|assumption]. intros T. discriminate T.
      * intros md L parts [|fuel] Hd HL Hf; [lia|].
        rewrite (think_loop_match fuel md L parts pre o body c rest m);
          try assumption; try congruence.
        assert (length md - L = length s) as Lmd
          by (rewrite <- Hd, length_drop; reflexivity).
        rewrite Hu; try lia.
        -- f_equal. rewrite <- !app_assoc. reflexivity.
        -- rewrite <- drop_drop, Hd, Hs.
           replace (pre ++ o ++ body ++ c ++ rest)
             with ((pre ++ o ++ body ++ c) ++ rest)
             by now rewrite !append_assoc.
           apply drop_app.
    + exists (plain s), [].
      repeat split; [apply rebuilds_plain_only | apply plain_ok_plain |].
      intros md L parts [|fuel] Hs HL Hf; [lia|].
      simpl think_loop. rewrite exec_at, Hs, Hm by assumption. simpl.
      now rewrite (plain_app s).
Qed.

(** *** Where the first match is *)

Lemma strip_take ic p x y n :
  strip ic p x = Some y -> length p <= n ->
  exists y', strip ic p (take n x) = Some y'.
Proof.
  revert x n; induction p as [|c p IH]; intros x n H Hn; simpl in *.
  - eauto.
  - destruct x as [|a x]; [discriminate|].
    destruct n as [|n]; [lia|]. simpl.
    destruct (char_eq ic c a); [|discriminate].
    apply (IH x n H). lia.
Qed.

Lemma reads_in_false_strip ic p a b :
  reads_in ic p (a ++ b) = false -> strip ic p b = None.
Proof.
  induction a as [|ch a IH]; simpl.
  - destruct b; simpl; destruct (strip ic p _); congruence.
  - destruct (strip ic p (String ch (a ++ b))); [discriminate | exact IH].
Qed.

Lemma reads_in_false_tail ic p ch s :
  reads_in ic p (String ch s) = false -> reads_in ic p s = false.
Proof.
  simpl. destruct (strip ic p (String ch s)); [discriminate | auto].
Qed.

(** No tag [p] starts in [pre] when [p] cannot be read in [pre] followed by
    all but the last code unit of the tag [o] that comes next. *)
Lemma no_tag_before ic p k pre o more :
  length p <= S k -> k <= length o ->
  reads_in ic p (pre ++ take k o) = false ->
  forall a1 a2, pre = a1 ++ a2 -> a2 <> EmptyString ->
  strip ic p (a2 ++ o ++ more) = None.
Proof.
  intros Hp Hk Hocc a1 a2 -> Hne.
  destruct (strip ic p (a2 ++ o ++ more)) as [y|] eqn:E; [|reflexivity].
  destruct (strip_take _ _ _ _ (length a2 + k) E) as (y' & E').
  { destruct a2; [congruence | simpl; lia]. }
  rewrite take_app_plus, take_app_le in E' by assumption.
  rewrite append_assoc in Hocc.
  apply reads_in_false_strip in Hocc. congruence.
Qed.

Lemma close_after_first body c rest :
  same_text true "</think>" c = true ->
  reads_in true "</think>" (body ++ take 7 c) = false ->
  close_after (body ++ c ++ rest) = Some (rest, Some body).
Proof.
  intros Hc Hocc. unfold close_after.
  pose proof (same_text_length _ _ _ Hc) as Lc. simpl in Lc.
  rewrite first_suffix_skip.
  - apply first_suffix_here. rewrite strip_app by assumption.
    rewrite length_append.
    replace (length body + length (c ++ rest) - length (c ++ rest))
      with (length body) by lia.
    now rewrite take_app.
  - intros a1 a2 E Hne.
    rewrite (no_tag_before true "</think>" 7 body c rest
               ltac:(simpl; lia) ltac:(lia) Hocc a1 a2 E Hne).
    reflexivity.
Qed.

(** The first match: the first opening tag, up to the first closing tag
    after it. *)
Lemma search_think_first pre o body c rest i :
  same_text true "<think>" o = true -> same_text true "</think>" c = true ->
  reads_in true "<think>" (pre ++ take 6 o) = false ->
  reads_in true "</think>" (body ++ take 7 c) = false ->
  search think_regex (pre ++ o ++ body ++ c ++ rest) i =
  Some (mkMatch (i + length pre) (o ++ body ++ c) (Some body)).
Proof.
  intros Ho Hc Hpre Hbody.
  pose proof (same_text_length _ _ _ Ho) as Lo. simpl in Lo.
  revert i; induction pre as [|ch pre IH]; intros i.
  - change (EmptyString ++ o ++ body ++ c ++ rest)
      with (o ++ body ++ c ++ rest).
    change (length EmptyString) with 0. rewrite Nat.add_0_r.
    rewrite search_think_unfold.
    rewrite strip_app by assumption.
    rewrite close_after_first by assumption.
    replace (o ++ body ++ c ++ rest) with ((o ++ body ++ c) ++ rest)
      by now rewrite !append_assoc.
    rewrite (length_append (o ++ body ++ c)).
    replace (length (o ++ body ++ c) + length rest - length rest)
      with (length (o ++ body ++ c)) by lia.
    now rewrite take_app.
  - rewrite search_think_unfold.
    rewrite (no_tag_before true "<think>" 6 (String ch pre) o
               (body ++ c ++ rest) ltac:(simpl; lia) ltac:(lia) Hpre
               EmptyString (String ch pre) eq_refl ltac:(discriminate)).
    change (String ch pre ++ o ++ body ++ c ++ rest)
      with (String ch (pre ++ o ++ body ++ c ++ rest)).
    cbv beta iota. rewrite IH.
    + simpl length. do 2 f_equal. lia.
    + eapply reads_in_false_tail, Hpre.
Qed.

Lemma reads_in_false_suffix ic p a b :
  reads_in ic p (a ++ b) = false -> reads_in ic p b = false.
Proof.
  induction a as [|ch a IH]; [auto|].
  intros H. apply IH. eapply reads_in_false_tail, H.
Qed.

Lemma close_after_None y0 :
  reads_in true "</think>" y0 = false -> close_after y0 = None.
Proof.
  intros H. apply first_suffix_None. intros a b ->.
  now rewrite (reads_in_false_strip _ _ _ _ H).
Qed.

Lemma unterminated_unfold s :
  unterminated s =
  (negb (starts "<think>" (lower s))
   || negb (occurs "</think>" (lower (drop 7 s))))
  && match s with
     | EmptyString => true
     | String _ s' => unterminated s'
     end.
Proof. destruct s; reflexivity. Qed.

(** No opening tag with a closing tag after it, no match. *)
Lemma search_think_unterminated s i :
  unterminated s = true -> search think_regex s i = None.
Proof.
  revert i; induction s as [|ch s IH]; intros i Hu;
    rewrite search_think_unfold; rewrite unterminated_unfold in Hu;
    apply andb_prop in Hu as [Hh Ht].
  - reflexivity.
  - assert (match strip true "<think>" (String ch s) with
            | Some y0 => close_after y0
            | None => None
            end = None) as E.
    { pose proof (strip_lower "<think>" (String ch s) open_tag_units) as L.
      destruct (strip true "<think>" (String ch s)) as [y0|] eqn:E;
        [|reflexivity].
      rewrite <- L in Hh. cbn [negb orb] in Hh.
      apply negb_true_iff in Hh.
      destruct (strip_Some _ _ _ _ E) as (o & Hs & Ho).
      pose proof (same_text_length _ _ _ Ho) as Lo.
      change (length "<think>") with 7 in Lo.
      rewrite Hs, <- Lo, drop_app in Hh.
      apply close_after_None.
      now rewrite reads_in_lower by apply close_tag_units. }
    rewrite E. now apply IH.
Qed.

(** No closing tag, no match. *)
Lemma search_think_None s i :
  reads_in true "</think>" s = false -> search think_regex s i = None.
Proof.
  revert i; induction s as [|ch s IH]; intros i Hocc;
    rewrite search_think_unfold.
  - simpl. reflexivity.
  - assert (match strip true "<think>" (String ch s) with
            | Some y0 => close_after y0
            | None => None
            end = None) as E.
    { destruct (strip true "<think>" (String ch s)) as [y0|] eqn:E;
        [|reflexivity].
      destruct (strip_Some _ _ _ _ E) as (o & Hs & _).
      apply first_suffix_None. intros a b ->.
      rewrite Hs, <- append_assoc in Hocc.
      now rewrite (reads_in_false_strip _ _ _ _ Hocc). }
    rewrite E. apply IH. eapply reads_in_false_tail, Hocc.
Qed.

(** *** Every blob has a first region or is unterminated *)

Lemma lower_app (a b : string) : lower (a ++ b) = lower a ++ lower b.
Proof. induction a as [|ch a IH]; simpl; [reflexivity | now rewrite IH]. Qed.

Lemma length_lower (s : string) : length (lower s) = length s.
Proof. induction s as [|ch s IH]; simpl; [reflexivity | now rewrite IH]. Qed.

Lemma starts_lower_take p x :
  starts p (lower x) = true -> lower (take (length p) x) = p.
Proof.
  revert x; induction p as [|c p IH]; intros [|a x] H; simpl in *;
    try reflexivity; try discriminate.
  apply andb_prop in H as [E H]. apply Ascii.eqb_eq in E.
  now rewrite <- E, (IH x H).
Qed.

(** The first place where [p] is written, letter case apart. *)
Lemma first_occurrence p y0 :
  0 < length p -> occurs p (lower y0) = true ->
  exists body c rest,
    y0 = body ++ c ++ rest /\ lower c = p /\
    occurs p (lower (body ++ take (length p - 1) c)) = false.
Proof.
  intros Hp. induction y0 as [|ch y IH]; intros H.
  - exfalso. destruct p; [simpl in Hp; lia | discriminate H].
  - destruct (starts p (lower (String ch y))) eqn:St.
    + exists EmptyString, (take (length p) (String ch y)),
        (drop (length p) (String ch y)).
      repeat split.
      * symmetry. apply take_drop.
      * now apply starts_lower_take.
      * apply occurs_short.
        rewrite length_lower. change (EmptyString ++ ?x) with x.
        rewrite length_take. lia.
    + change (lower (String ch y)) with (String (lower_unit ch) (lower y)) in *.
      rewrite occurs_unfold, St in H. simpl in H.
      destruct (IH H) as (body & c & rest & Hy & Hc & Hocc).
      exists (String ch body), c, rest. repeat split; try assumption.
      * simpl. now rewrite Hy.
      * change (lower (String ch body ++ take (length p - 1) c))
          with (String (lower_unit ch)
                       (lower (body ++ take (length p - 1) c))).
        rewrite occurs_unfold, Hocc.
        destruct (starts p (String (lower_unit ch)
                                   (lower (body ++ take (length p - 1) c))))
          eqn:E; [|reflexivity].
        apply (starts_app _ _ (lower (drop (length p - 1) c ++ rest))) in E.
        change (String (lower_unit ch) ?x ++ ?w)
          with (String (lower_unit ch) (x ++ w)) in E.
        rewrite <- lower_app, append_assoc in E.
        rewrite <- (append_assoc (take (length p - 1) c)), take_drop in E.
        rewrite <- Hy in E. congruence.
Qed.

(** A blob is unterminated, or it has a first opening tag and a first
    closing tag after it. *)
Lemma think_region_or_unterminated md :
  unterminated md = true \/
  exists pre o body c rest,
    md = pre ++ o ++ body ++ c ++ rest /\
    is_open_tag o = true /\ is_close_tag c = true /\
    occurs "<think>" (lower (pre ++ take 6 o)) = false /\
    occurs "</think>" (lower (body ++ take 7 c)) = false.
Proof.
  induction md as [|ch s IH]; [left; reflexivity|].
  rewrite unterminated_unfold.
  destruct (starts "<think>" (lower (String ch s))) eqn:H;
    [destruct (occurs "</think>" (lower (drop 7 (String ch s)))) eqn:K|].
  - right.
    destruct (first_occurrence "</think>" _ ltac:(simpl; lia) K)
      as (body & c & rest & Hy & Hc & Hocc).
    exists EmptyString, (take 7 (String ch s)), body, c, rest.
    repeat split.
    + rewrite <- Hy. symmetry. apply (take_drop 7).
    + unfold is_open_tag. apply String.eqb_eq.
      now apply (starts_lower_take "<think>").
    + unfold is_close_tag. now apply String.eqb_eq.
    + apply occurs_short. rewrite length_lower.
      change (EmptyString ++ ?x) with x. rewrite length_take.
      change (length "<think>") with 7. lia.
    + exact Hocc.
  - cbn [negb orb andb].
    destruct IH as [IH|(pre & o & body & c & rest & Hs & Ho & Hc & H1 & H2)];
      [now left|].
    exfalso.
    unfold is_open_tag in Ho. apply String.eqb_eq in Ho.
    unfold is_close_tag in Hc. apply String.eqb_eq in Hc.
    assert (length o = 7) as Lo
      by (rewrite <- length_lower, Ho; reflexivity).
    assert (occurs "</think>" (lower (drop 7 (String ch s))) = true);
      [|congruence].
    change (drop 7 (String ch s)) with (drop 6 s). rewrite Hs.
    replace (pre ++ o ++ body ++ c ++ rest)
      with ((pre ++ o ++ body) ++ c ++ rest) by now rewrite !append_assoc.
    rewrite drop_app_le by (rewrite !length_append; lia).
    rewrite lower_app. apply occurs_app_r.
    rewrite lower_app, Hc. apply occurs_here, starts_self_app.
  - cbn [negb orb andb].
    destruct IH as [IH|(pre & o & body & c & rest & Hs & Ho & Hc & H1 & H2)];
      [now left|].
    right. exists (String ch pre), o, body, c, rest. repeat split;
      try assumption.
    + simpl. now rewrite Hs.
    + change (lower (String ch pre ++ take 6 o))
        with (String (lower_unit ch) (lower (pre ++ take 6 o))).
      rewrite occurs_unfold, H1.
      destruct (starts "<think>"
                  (String (lower_unit ch) (lower (pre ++ take 6 o))))
        eqn:E; [|reflexivity].
      apply (starts_app _ _ (lower (drop 6 o ++ body ++ c ++ rest))) in E.
      change (String (lower_unit ch) ?x ++ ?w)
        with (String (lower_unit ch) (x ++ w)) in E.
      rewrite <- lower_app, append_assoc in E.
      rewrite <- (append_assoc (take 6 o)), take_drop in E.
      rewrite <- Hs in E.
      change (String (lower_unit ch) (lower s))
        with (lower (String ch s)) in E. congruence.
Qed.

Lemma splitThinkBlocks_fuel_after fuel md :
  splitThinkBlocks_fuel fuel md = after_loop md (think_loop fuel md 0 0 []).
Proof. reflexivity. Qed.

End ThinkFacts.


(** ** The segmenter *)

Section Segmenter.

Import Str StrFacts RegExp Spec Aux RegExpFacts ThinkFacts Page.

(** The loop of [splitThinkBlocks] ends within the rounds it is given, and
    its segments are those of [split_suffix]. *)
Lemma splitThinkBlocks_total (md : string) :
  exists segs tags,
    splitThinkBlocks md = Some segs /\
    rebuilds tags segs md /\ Forall plain_ok segs.
Proof.
  destruct (split_suffix (length md) md (le_n _))
    as (segs & tags & Hr & Hk & Hu).
  exists segs, tags. repeat split; try assumption.
  unfold splitThinkBlocks. rewrite splitThinkBlocks_fuel_after.
  apply (Hu md 0 [] (S (length md))); [reflexivity | lia | lia].
Qed.

(** More rounds change nothing. *)
Lemma splitThinkBlocks_fuel_enough (md : string) (fuel : nat) :
  length md < fuel -> splitThinkBlocks_fuel fuel md = splitThinkBlocks md.
Proof.
  intros H.
  destruct (split_suffix (length md) md (le_n _)) as (segs & _ & _ & _ & Hu).
  unfold splitThinkBlocks. rewrite !splitThinkBlocks_fuel_after.
  rewrite (Hu md 0 [] fuel), (Hu md 0 [] (S (length md)));
    (reflexivity || lia).
Qed.

(** With the tags in lower case, [rebuild] gives the same text. *)
Lemma rebuilds_lower_case tags segs md :
  rebuilds tags segs md ->
  Forall (fun t => t = ("<think>", "</think>")) tags ->
  rebuild segs = md.
Proof.
  induction 1 as [|text tags segs s _ IH|o c text tags segs s _ _ _ IH];
    intros Ht; simpl.
  - reflexivity.
  - now rewrite IH.
  - inversion Ht as [|t ts E Hts]; subst. injection E as -> ->.
    rewrite (IH Hts). now rewrite !append_assoc.
Qed.

(** C5, as amended.  For every blob the segmenter returns a sequence of
    segments which, put one after the other in order, each think segment
    between an opening and a closing think-tag written in the letter case
    the blob has them in, give back the blob code unit for code unit:
    the segments cover the blob with no gap and no overlap.  When these
    tags are all in lower case, putting [<think>] and [</think>] around
    the think segments gives back the blob. *)
Theorem splitThinkBlocks_covers (md : string) :
  exists segs tags,
    splitThinkBlocks md = Some segs /\
    rebuilds tags segs md /\
    (Forall (fun t => t = ("<think>", "</think>")) tags ->
     rebuild segs = md).
Proof.
  destruct (splitThinkBlocks_total md) as (segs & tags & H & Hr & _).
  exists segs, tags. repeat split; try assumption.
  now apply rebuilds_lower_case.
Qed.

(** C5, as stated, fails on tags in upper case: the tags put back in are
    not those of the blob. *)
Lemma splitThinkBlocks_rebuild_upper_case :
  splitThinkBlocks "<THINK>a</THINK>" = Some [mkSegment "a" true] /\
  rebuild [mkSegment "a" true] <> "<THINK>a</THINK>".
Proof. split; [reflexivity | discriminate]. Qed.

(** C10.  Every segment with [isThink = false] that the segmenter returns
    has a content that is not empty, while a think segment may be empty:
    the blob [<think></think>] gives the one segment
    [{ content: (empty), isThink: true }]. *)
Theorem plain_segments_not_empty :
  (forall md, exists segs,
      splitThinkBlocks md = Some segs /\
      forall seg, In seg segs ->
        isThink seg = false -> content seg <> EmptyString) /\
  splitThinkBlocks "<think></think>" = Some [mkSegment EmptyString true].
Proof.
  split; [|reflexivity].
  intros md. destruct (splitThinkBlocks_total md) as (segs & _ & H & _ & Hk).
  exists segs. split; [assumption|].
  intros seg Hin. rewrite Forall_forall in Hk. now apply Hk.
Qed.

(** C6.  The segmenter takes the think regions from left to right, tags
    in any letter case, each region ending at the first closing tag after
    its opening tag: when [o] is the first opening tag of the blob and [c]
    the first closing tag after it, the blob gives the text before [o] as a
    plain segment (none when empty), then the text between the tags as a
    think segment, then the segments of what follows [c].  A blob in which
    no opening tag has a closing tag after it, so a blob with an
    unterminated [<think>] or with no closing tag at all, is one plain
    segment (none when the blob is empty).
    So [<think>reasoning</think>answer] gives exactly the think segment
    [reasoning] and the plain segment [answer]. *)
Theorem splitThinkBlocks_think_regions :
  (forall pre o body c rest,
      is_open_tag o = true -> is_close_tag c = true ->
      occurs "<think>" (lower (pre ++ take 6 o)) = false ->
      occurs "</think>" (lower (body ++ take 7 c)) = false ->
      exists segs,
        splitThinkBlocks rest = Some segs /\
        splitThinkBlocks (pre ++ o ++ body ++ c ++ rest) =
        Some (plain pre ++ mkSegment body true :: segs)%list) /\
  (forall md,
      unterminated md = true -> splitThinkBlocks md = Some (plain md)) /\
  (forall md,
      occurs "</think>" (lower md) = false ->
      splitThinkBlocks md = Some (plain md)) /\
  splitThinkBlocks "<think>reasoning</think>answer" =
  Some [mkSegment "reasoning" true; mkSegment "answer" false].
Proof.
  split; [|split; [|split; [|reflexivity]]].
  - intros pre o body c rest Ho Hc Hpre Hbody.
    rewrite open_tag_reads in Ho. rewrite close_tag_reads in Hc.
    rewrite <- reads_in_lower in Hpre by apply open_tag_units.
    rewrite <- reads_in_lower in Hbody by apply close_tag_units.
    destruct (split_suffix (length rest) rest (le_n _))
      as (segs & _ & _ & _ & Hu).
    exists segs. split.
    + unfold splitThinkBlocks. rewrite splitThinkBlocks_fuel_after.
      apply (Hu rest 0 [] (S (length rest))); [reflexivity | lia | lia].
    + pose proof (same_text_length _ _ _ Ho) as Lo. simpl in Lo.
      set (md := pre ++ o ++ body ++ c ++ rest).
      assert (length md = length (pre ++ o ++ body ++ c) + length rest) as L.
      { unfold md. rewrite !length_append. lia. }
      unfold splitThinkBlocks. rewrite splitThinkBlocks_fuel_after.
      rewrite (think_loop_match (length md) md 0 [] pre o body c rest
                 (mkMatch (0 + length pre) (o ++ body ++ c) (Some body)));
        try reflexivity; [| lia | now apply search_think_first].
      simpl app at 1.
      rewrite Hu.
      * f_equal. now rewrite <- app_assoc.
      * unfold md.
        replace (pre ++ o ++ body ++ c ++ rest)
          with ((pre ++ o ++ body ++ c) ++ rest)
          by now rewrite !append_assoc.
        apply drop_app.
      * lia.
      * rewrite !length_append in *. lia.
  - intros md Hu.
    unfold splitThinkBlocks. rewrite splitThinkBlocks_fuel_after.
    simpl think_loop. rewrite exec_at by lia.
    rewrite drop_0, search_think_unterminated by assumption.
    simpl after_loop. f_equal. apply (plain_app md []); [reflexivity | lia].
  - intros md Hocc.
    rewrite <- reads_in_lower in Hocc by apply close_tag_units.
    unfold splitThinkBlocks. rewrite splitThinkBlocks_fuel_after.
    simpl think_loop. rewrite exec_at by lia.
    rewrite drop_0, search_think_None by assumption.
    simpl after_loop. f_equal. apply (plain_app md []); [reflexivity | lia].
Qed.

Lemma splitThinkBlocks_think_regions_witness :
  (exists segs,
      splitThinkBlocks "b<think>" = Some segs /\
      splitThinkBlocks ("a" ++ "<THINK>" ++ "x<think>y" ++ "</Think>"
                            ++ "b<think>") =
      Some (plain "a" ++ mkSegment "x<think>y" true :: segs)%list) /\
  splitThinkBlocks "a</think>b<Think>reason"
  = Some (plain "a</think>b<Think>reason") /\
  splitThinkBlocks "<think>reason" = Some (plain "<think>reason").
Proof.
  split; [|split].
  - apply (proj1 splitThinkBlocks_think_regions); reflexivity.
  - apply (proj1 (proj2 splitThinkBlocks_think_regions)); reflexivity.
  - apply (proj1 (proj2 (proj2 splitThinkBlocks_think_regions))); reflexivity.
Defined.

End Segmenter.

(** ** The two buffers *)

Module HomeFacts.

Import Str StrFacts Spec Aux Page Home.

Lemma fullContent_apply_delta delta st :
  fullContent (apply_delta delta st) = plus (fullContent st) delta.
Proof.
  unfold apply_delta. destruct (isBalanced _); reflexivity.
Qed.

Lemma renderedContent_apply_delta delta st :
  renderedContent (apply_delta delta st) =
  if isBalanced (plus (fullContent st) delta)
  then plus (fullContent st) delta else renderedContent st.
Proof.
  unfold apply_delta. destruct (isBalanced _); reflexivity.
Qed.

Lemma buffers_begin_turn render : buffers_ok (begin_turn render).
Proof.
  split; simpl.
  - exists EmptyString. reflexivity.
  - split; reflexivity.
Qed.

(** A delta keeps the two buffers in order, whatever it carries. *)
Lemma buffers_apply_delta delta st :
  buffers_ok st -> buffers_ok (apply_delta delta st).
Proof.
  intros [[tail Ht] Hb]. unfold buffers_ok, safe_prefix.
  rewrite fullContent_apply_delta, renderedContent_apply_delta.
  unfold plus. set (d := match delta with Some d => d | None => _ end).
  destruct (isBalanced (fullContent st ++ d)) eqn:B.
  - split; [exists EmptyString; now rewrite append_nil_r | tauto].
  - split.
    + exists (tail ++ d). rewrite <- append_assoc, <- Ht. reflexivity.
    + split; [|discriminate]. intros E. exfalso.
      assert (length tail + length d = 0) as L.
      { apply (f_equal length) in E.
        rewrite Ht, !length_append in E. lia. }
      assert (d = EmptyString) as Hd by (apply length_zero; lia).
      assert (tail = EmptyString) as Htl by (apply length_zero; lia).
      rewrite Hd, append_nil_r in B. rewrite Htl, append_nil_r in Ht.
      symmetry in Ht. apply Hb in Ht. congruence.
Qed.

Lemma buffers_for_lines lines :
  forall st, buffers_ok st -> buffers_ok (fst (for_lines lines st)).
Proof.
  induction lines as [|l lines IH]; intros st Hst; [assumption|].
  destruct l as [| |delta error|]; simpl; try assumption; [now apply IH|].
  destruct (field_truthy error); [assumption|].
  now apply IH, buffers_apply_delta.
Qed.

(** The two buffers are in order all along the loop. *)
Lemma buffers_read_loop reads :
  forall st, buffers_ok st -> buffers_ok (fst (read_loop reads st)).
Proof.
  induction reads as [|lines reads IH]; intros st Hst; [assumption|].
  pose proof (buffers_for_lines lines st Hst) as Hl.
  simpl. destruct (for_lines lines st) as [st' [| |]]; simpl in *;
    try assumption.
  now apply IH.
Qed.

(** *** The safe buffer never gets shorter *)

Lemma safe_prefix_apply_delta delta st :
  safe_prefix st ->
  safe_prefix (apply_delta delta st) /\
  length (renderedContent st) <= length (renderedContent (apply_delta delta st)).
Proof.
  intros [tail Ht]. unfold safe_prefix.
  rewrite fullContent_apply_delta, renderedContent_apply_delta.
  destruct (isBalanced (plus (fullContent st) delta)).
  - split; [exists EmptyString; now rewrite append_nil_r|].
    unfold plus. rewrite Ht, !length_append. lia.
  - split; [|lia]. unfold plus.
    eexists. rewrite Ht at 1. apply append_assoc.
Qed.

Lemma safe_for_lines lines :
  forall st,
    safe_prefix st ->
    safe_prefix (fst (for_lines lines st)) /\
    length (renderedContent st)
    <= length (renderedContent (fst (for_lines lines st))).
Proof.
  induction lines as [|l lines IH]; intros st Hst;
    [split; [assumption | simpl; lia]|].
  destruct l as [| |delta error|]; simpl; try (split; [assumption|lia]).
  - now apply IH.
  - destruct (field_truthy error); [split; [assumption|simpl; lia]|].
    destruct (safe_prefix_apply_delta delta st Hst) as [H1 H2].
    destruct (IH _ H1) as [H3 H4]. split; [assumption|lia].
Qed.

(** Going on after [l1] is going on from the state [l1] has led to,
    unless [l1] has ended the loop. *)
Lemma for_lines_app l1 l2 st :
  for_lines (l1 ++ l2) st =
  match for_lines l1 st with
  | (st', Next) => for_lines l2 st'
  | r => r
  end.
Proof.
  revert st; induction l1 as [|l l1 IH]; intros st; [reflexivity|].
  destruct l as [| |delta error|]; simpl; try reflexivity.
  - apply IH.
  - destruct (field_truthy error); [reflexivity | apply IH].
Qed.

(** The reads of the loop only cut the sequence of the lines. *)
Lemma read_loop_lines reads st :
  fst (read_loop reads st) = fst (for_lines (List.concat reads) st).
Proof.
  revert st; induction reads as [|lines reads IH]; intros st; [reflexivity|].
  simpl. rewrite for_lines_app.
  destruct (for_lines lines st) as [st' [| |]]; simpl; auto.
Qed.

End HomeFacts.

Section Buffers.

Import Str StrFacts Spec Aux Page Home HomeFacts.

(** C2.  In a streaming turn whose deltas all carry some text, after each
    delta (so after any sequence of reads [reads] from the start of the
    turn) the safe buffer [renderedContent] is a prefix of the full buffer
    [fullContent], and equals it if and only if the full buffer is
    balanced; processing a delta sets the full buffer to its old value
    followed by the delta, and the safe buffer to the new full buffer when
    that is balanced, leaving it unchanged otherwise.  (By
    [buffers_read_loop] the two buffers are in this order whatever the
    deltas carry.) *)
Theorem safe_prefix_of_full (render : State) (reads : list (list Line)) :
  forallb (forallb delta_not_empty) reads = true ->
  let st := fst (read_loop reads (begin_turn render)) in
  (exists tail, fullContent st = renderedContent st ++ tail) /\
  (renderedContent st = fullContent st <-> isBalanced (fullContent st) = true) /\
  forall text,
    fullContent (apply_delta (Some text) st) = fullContent st ++ text /\
    renderedContent (apply_delta (Some text) st) =
    if isBalanced (fullContent st ++ text)
    then fullContent st ++ text else renderedContent st.
Proof.
  intros _ st.
  destruct (buffers_read_loop reads (begin_turn render)
              (buffers_begin_turn render)) as [H1 H2].
  split; [assumption|]. split; [assumption|].
  intros text. split.
  - apply fullContent_apply_delta.
  - apply renderedContent_apply_delta.
Qed.

Lemma safe_prefix_of_full_witness :
  let st :=
    fst (read_loop
           [[Payload (Some "```py code") None]; [Payload (Some " ```") None]]
           (begin_turn (mkState [] "hi" false EmptyString EmptyString))) in
  (exists tail, fullContent st = renderedContent st ++ tail) /\
  (renderedContent st = fullContent st <-> isBalanced (fullContent st) = true) /\
  forall text,
    fullContent (apply_delta (Some text) st) = fullContent st ++ text /\
    renderedContent (apply_delta (Some text) st) =
    if isBalanced (fullContent st ++ text)
    then fullContent st ++ text else renderedContent st.
Proof.
  apply (safe_prefix_of_full
           (mkState [] "hi" false EmptyString EmptyString)
           [[Payload (Some "```py code") None]; [Payload (Some " ```") None]]).
  reflexivity.
Defined.

(** C3.  Within a turn the length of the safe buffer never decreases: it
    is at most as long after the lines [l1] as after [l1] followed by any
    further lines [l2], and processing one more delta, whatever it holds,
    does not make it shorter; the reads only cut the sequence of lines. *)
Theorem safe_length_monotone (render : State) (l1 l2 : list Line) :
  let st0 := begin_turn render in
  let st1 := fst (for_lines l1 st0) in
  length (renderedContent st1)
  <= length (renderedContent (fst (for_lines (l1 ++ l2) st0))) /\
  (forall delta,
      length (renderedContent st1)
      <= length (renderedContent (apply_delta delta st1))) /\
  (forall reads,
      fst (read_loop reads st0) = fst (for_lines (List.concat reads) st0)).
Proof.
  intros st0 st1.
  assert (safe_prefix st0) as H0 by (exists EmptyString; reflexivity).
  destruct (safe_for_lines l1 st0 H0) as [H1 _].
  repeat split.
  - rewrite for_lines_app. unfold st1.
    destruct (for_lines l1 st0) as [st' [| |]] eqn:E; simpl in *; try lia.
    apply (safe_for_lines l2 st' H1).
  - intros delta. apply (safe_prefix_apply_delta delta st1 H1).
  - intros reads. apply read_loop_lines.
Qed.

(** What the check made when the loop is over does: it reads
    [fullContent] of the render that called [sendMessage]. *)
Lemma sendMessage_final_check (render : State) (reads : list (list Line)) :
  blank (input render) = false ->
  snd (read_loop reads (begin_turn render)) <> Thrown ->
  renderedContent (fst (sendMessage render (Some reads))) =
  if truthy (fullContent render) && isBalanced (fullContent render)
  then fullContent render
  else renderedContent (fst (read_loop reads (begin_turn render))).
Proof.
  intros Hb Ht. unfold sendMessage. rewrite Hb.
  destruct (read_loop reads (begin_turn render)) as [st [| |]];
    simpl in *; congruence.
Qed.

(** C4, at the failing input.  The check made when the loop is over reads
    [fullContent] of the render that called [sendMessage], not the buffer
    of the turn: called from a render that still holds the reply [Hello]
    of the turn before, a turn whose reply is [Hi] ends with the full
    buffer [Hi], balanced, and the safe buffer [Hello]. *)
Lemma sendMessage_final_check_stale :
  let render :=
    mkState [mkMessage user "a"; mkMessage assistant "Hello"]
            "b" false "Hello" "Hello" in
  let st := fst (sendMessage render
                   (Some [[Payload (Some "Hi") None]; [DoneLine]])) in
  fullContent st = "Hi" /\ isBalanced "Hi" = true /\
  renderedContent st = "Hello" /\
  renderedContent (fst (read_loop [[Payload (Some "Hi") None]; [DoneLine]]
                          (begin_turn render))) = "Hi".
Proof. repeat split. Qed.

End Buffers.

(** ** The relay *)

Module RelayFacts.

Import Str Spec Relay.

Lemma written_app (a b : list Effect) :
  written (a ++ b) = (written a ++ written b)%list.
Proof.
  induction a as [|e a IH]; [reflexivity|].
  destruct e; simpl; rewrite ?IH; reflexivity.
Qed.

Lemma catch_block_events :
  catch_block =
  [console_error; write (frame (Error "OpenAI API error")); end_].
Proof. reflexivity. Qed.

(** What the loop writes, and how it ends. *)
Lemma for_await_events parts throws :
  exists pre texts,
    for_await parts throws =
    (pre ++ [write (frame (if throws then Error "OpenAI API error" else Done));
             end_])%list /\
    written pre = map frame (map Delta texts) /\
    (forall model messages, ~ In (create model messages) pre) /\
    (map Delta texts
       ++ [if throws then Error "OpenAI API error" else Done])%list
    = relay_events (Stream parts throws).
Proof.
  induction parts as [|part parts IH].
  - destruct throws.
    + exists [console_error], []. repeat split.
      intros model messages [H|[]]. discriminate H.
    + exists [], []. repeat split. intros model messages [].
  - destruct IH as (pre & texts & E & W & C & R).
    destruct part as [delta|]; simpl for_await.
    + destruct (truthy delta) eqn:T.
      * exists (write (frame (Delta delta)) :: pre), (delta :: texts).
        rewrite E. repeat split.
        -- simpl. now rewrite W.
        -- intros model messages [H|H]; [discriminate H | now apply C in H].
        -- simpl. rewrite T. simpl. f_equal. exact R.
      * exists pre, texts. rewrite E. repeat split; try assumption.
        simpl. rewrite T. exact R.
    + exists pre, texts. rewrite E. repeat split; assumption.
Qed.

Lemma frame_delta_not_terminal text t :
  is_terminal t = true -> frame (Delta text) <> frame t.
Proof.
  destruct t as [text'| |message]; simpl; intros H; discriminate.
Qed.

Lemma handler_POST MODEL_NAME req up :
  method req = Some "POST" ->
  handler MODEL_NAME req up =
  ([ setHeader "Content-Type" (One "text/event-stream");
     setHeader "Cache-Control" (One "no-cache, no-transform");
     setHeader "Connection" (One "keep-alive");
     flushHeaders;
     create MODEL_NAME (body_messages req) ]
   ++ match up with
      | CreateRejects => catch_block
      | Stream parts throws => for_await parts throws
      end)%list.
Proof. intros H. unfold handler. rewrite H. reflexivity. Qed.

(** The effects of a POST request: the headers, the call to the provider,
    the delta frames, the terminal frame, the end of the response. *)
Lemma handler_stream MODEL_NAME req up :
  method req = Some "POST" ->
  exists pre texts t,
    handler MODEL_NAME req up = (pre ++ [write (frame t); end_])%list /\
    written pre = map frame (map Delta texts) /\
    (map Delta texts ++ [t])%list = relay_events up /\
    is_terminal t = true.
Proof.
  intros H. rewrite (handler_POST _ _ _ H).
  destruct up as [|parts throws].
  - eexists (_ ++ [console_error])%list, [], (Error "OpenAI API error").
    rewrite catch_block_events, <- app_assoc. repeat split.
  - destruct (for_await_events parts throws) as (pre & texts & E & W & _ & R).
    eexists (_ ++ pre)%list, texts, _.
    rewrite E, <- app_assoc. repeat split.
    + rewrite written_app. exact W.
    + exact R.
    + now destruct throws.
Qed.

End RelayFacts.

Section RelayClaims.

Import Str Spec Relay RelayFacts.

(** C7.  For a POST request the relay writes, in order, one delta frame
    for each part of the provider's stream that carries some text, holding
    that text, then the frame of [Done] when the stream is exhausted, or
    the frame of one [Error] with the message [OpenAI API error] when the
    call to the provider or the stream fails; then it ends the response. *)
Theorem relay_frames MODEL_NAME (req : Request) (up : Upstream) :
  method req = Some "POST" ->
  written (handler MODEL_NAME req up) = map frame (relay_events up) /\
  exists pre, handler MODEL_NAME req up = (pre ++ [end_])%list.
Proof.
  intros H.
  destruct (handler_stream MODEL_NAME req up H)
    as (pre & texts & t & E & W & R & _).
  rewrite E. split.
  - rewrite written_app, W, <- R, !map_app. reflexivity.
  - exists (pre ++ [write (frame t)])%list. now rewrite <- app_assoc.
Qed.

Lemma relay_frames_witness :
  let req := mkRequest (Some "POST") [] in
  let up := Stream [Some "Hel"; None; Some EmptyString; Some "lo"] true in
  written (handler "m" req up) = map frame (relay_events up) /\
  exists pre, handler "m" req up = (pre ++ [end_])%list.
Proof.
  apply (relay_frames "m" (mkRequest (Some "POST") [])
           (Stream [Some "Hel"; None; Some EmptyString; Some "lo"] true)).
  reflexivity.
Defined.

(** C8.  The stream the relay produces for a POST request holds exactly
    one terminal event, [Done] or [Error], and it is the last one: the
    effects of the handler are some effects that write delta frames only,
    then the write of the terminal frame, then the end of the response,
    and no delta frame is the frame of a terminal event. *)
Theorem relay_one_terminal_last MODEL_NAME (req : Request) (up : Upstream) :
  method req = Some "POST" ->
  exists pre texts t,
    handler MODEL_NAME req up = (pre ++ [write (frame t); end_])%list /\
    written pre = map frame (map Delta texts) /\
    is_terminal t = true /\
    forall text, In text texts -> frame (Delta text) <> frame t.
Proof.
  intros H.
  destruct (handler_stream MODEL_NAME req up H)
    as (pre & texts & t & E & W & _ & T).
  exists pre, texts, t. repeat split; try assumption.
  intros text _. now apply frame_delta_not_terminal.
Qed.

Lemma relay_one_terminal_last_witness :
  exists pre texts t,
    handler "m" (mkRequest (Some "POST") []) (Stream [Some "a"] false)
    = (pre ++ [write (frame t); end_])%list /\
    written pre = map frame (map Delta texts) /\
    is_terminal t = true /\
    forall text, In text texts -> frame (Delta text) <> frame t.
Proof.
  apply (relay_one_terminal_last "m" (mkRequest (Some "POST") [])
           (Stream [Some "a"] false)).
  reflexivity.
Defined.

(** C9.  For a request whose method is not POST the relay answers with
    the status 405, the header [Allow] set to [POST] and an error body,
    and does nothing else: it does not call the provider and writes no
    frame. *)
Theorem relay_method_not_allowed MODEL_NAME (req : Request) (up : Upstream) :
  method req <> Some "POST" ->
  handler MODEL_NAME req up =
  [ status 405;
    setHeader "Allow" (Several ["POST"]);
    json_error "Method Not Allowed" ] /\
  (forall model messages,
      ~ In (create model messages) (handler MODEL_NAME req up)) /\
  written (handler MODEL_NAME req up) = [].
Proof.
  intros H.
  assert (handler MODEL_NAME req up =
          [ status 405; setHeader "Allow" (Several ["POST"]);
            json_error "Method Not Allowed" ]) as E.
  { unfold handler. destruct (method req) as [m|]; [|reflexivity].
    destruct (String.eqb m "POST") eqn:M; [|reflexivity].
    apply String.eqb_eq in M. congruence. }
  rewrite E. repeat split.
  intros model messages [F|[F|[F|[]]]]; discriminate F.
Qed.

Lemma relay_method_not_allowed_witness :
  let req := mkRequest (Some "GET") [] in
  let up := Stream [Some "a"] false in
  handler "m" req up =
  [ status 405;
    setHeader "Allow" (Several ["POST"]);
    json_error "Method Not Allowed" ] /\
  (forall model messages, ~ In (create model messages) (handler "m" req up)) /\
  written (handler "m" req up) = [].
Proof.
  apply (relay_method_not_allowed "m" (mkRequest (Some "GET") [])
           (Stream [Some "a"] false)).
  discriminate.
Defined.

End RelayClaims.

(** ** The scenarios of the specification *)

Section Scenarios.

Import Str Spec Page Home Relay.

Let first_render : State := mkState [] "hi" false EmptyString EmptyString.

(** Scenario A: three deltas, balanced all along. *)
Example scenario_A :
  let st := fst (turn first_render
                   (Stream [Some "Hel"; Some "lo wor"; Some "ld"] false)) in
  renderedContent st = "Hello world" /\ fullContent st = "Hello world" /\
  messages st = [mkMessage user "hi"; mkMessage assistant "Hello world"] /\
  loading st = false.
Proof. repeat split. Qed.

(** Scenario B: a code fence opened by the first delta and closed by the
    second. *)
Example scenario_B :
  let d1 := "```py" ++ LF ++ "code" in
  let d2 := LF ++ "```" in
  let st0 := begin_turn first_render in
  let st1 := apply_delta (Some d1) st0 in
  let st2 := apply_delta (Some d2) st1 in
  renderedContent st1 = EmptyString /\ fullContent st1 = d1 /\
  slice (fullContent st1) (length (renderedContent st1))
        (length (fullContent st1)) = d1 /\
  renderedContent st2 = d1 ++ d2 /\ fullContent st2 = d1 ++ d2.
Proof. repeat split. Qed.

(** Scenario C: a think region closed by the second delta. *)
Example scenario_C :
  splitThinkBlocks "<think>reason" = Some [mkSegment "<think>reason" false] /\
  splitThinkBlocks ("<think>reason" ++ "ing</think>answer") =
  Some [mkSegment "reasoning" true; mkSegment "answer" false].
Proof. split; reflexivity. Qed.

(** Scenario D: the provider fails before any delta. *)
Example scenario_D :
  let st := fst (turn first_render CreateRejects) in
  messages st =
  [mkMessage user "hi"; mkMessage assistant "OpenAI API error"] /\
  loading st = false /\ snd (turn first_render CreateRejects) = Finished.
Proof. repeat split. Qed.

(** Scenario E: a request that is not a POST. *)
Example scenario_E :
  handler "model" (mkRequest (Some "GET") []) (Stream [Some "a"] false) =
  [status 405; setHeader "Allow" (Several ["POST"]);
   json_error "Method Not Allowed"].
Proof. reflexivity. Qed.

End Scenarios.

(** * The rest of the page: proofs *)

(** ** The lines of the response *)

Module WireFacts.

Import Str StrFacts Home Wire Spec2.

Lemma split_lines_not_nil s : split_lines s <> [].
Proof.
  induction s as [|a s IH]; simpl; [discriminate|].
  destruct (is_LF a); [discriminate|].
  destruct (is_CR a && starts_LF s); [assumption|].
  destruct (split_lines s); discriminate.
Qed.

Lemma removelast_cons {A : Type} (x : A) l :
  l <> [] -> removelast (x :: l) = x :: removelast l.
Proof. destruct l; [congruence | reflexivity]. Qed.

Lemma last_cons {A : Type} (x d : A) l : l <> [] -> last (x :: l) d = last l d.
Proof. destruct l; [congruence | reflexivity]. Qed.

Lemma starts_LF_split s :
  starts_LF s = true ->
  exists more, split_lines s = EmptyString :: more /\ more <> [].
Proof.
  destruct s as [|a s]; simpl; [discriminate|].
  intros ->. exists (split_lines s). split; [reflexivity|].
  apply split_lines_not_nil.
Qed.

(** One piece only: the string had no line feed, and is the piece. *)
Lemma split_single s p : split_lines s = [p] -> p = s.
Proof.
  revert p; induction s as [|a s IH]; intros p; simpl.
  - congruence.
  - destruct (is_LF a).
    + pose proof (split_lines_not_nil s). destruct (split_lines s); congruence.
    + destruct (is_CR a && starts_LF s) eqn:E.
      * apply andb_prop in E as [_ E].
        destruct (starts_LF_split s E) as (more & -> & Hm). congruence.
      * destruct (split_lines s) as [|q more] eqn:Hs; simpl.
        -- now destruct (split_lines_not_nil s).
        -- intros H. injection H as <- ->. f_equal. now apply IH.
Qed.

Lemma starts_LF_app s c :
  s <> EmptyString -> starts_LF (s ++ c) = starts_LF s.
Proof. destruct s; [congruence | reflexivity]. Qed.

Lemma split_lines_cons a s :
  split_lines (String a s) =
  if is_LF a then EmptyString :: split_lines s
  else if is_CR a && starts_LF s then split_lines s
  else onto_first a (split_lines s).
Proof. reflexivity. Qed.

(** More text after [s] leaves the pieces of [s] as they are, but the
    last: the text goes on from it. *)
Lemma split_lines_app s c :
  split_lines (s ++ c) =
  (removelast (split_lines s)
   ++ split_lines (last (split_lines s) EmptyString ++ c))%list.
Proof.
  induction s as [|a s IH]; [reflexivity|].
  change (String a s ++ c) with (String a (s ++ c)).
  rewrite !split_lines_cons.
  destruct (is_LF a) eqn:Ha.
  { rewrite IH, removelast_cons, last_cons by apply split_lines_not_nil.
    reflexivity. }
  assert (is_CR a && starts_LF (s ++ c) = false ->
          is_CR a && starts_LF s = false ->
          onto_first a (split_lines (s ++ c)) =
          (removelast (onto_first a (split_lines s))
           ++ split_lines (last (onto_first a (split_lines s)) EmptyString
                           ++ c))%list) as Onto.
  { intros C1 C2. rewrite IH.
    destruct (split_lines s) as [|p [|q more]] eqn:Hs.
    - now destruct (split_lines_not_nil s).
    - apply split_single in Hs. subst p. simpl.
      now rewrite Ha, C1.
    - reflexivity. }
  destruct (is_CR a) eqn:Hc; [|now apply Onto].
  destruct s as [|b s].
  - change (EmptyString ++ c) with c in *.
    change (starts_LF EmptyString) with false in *. cbn [andb] in *.
    destruct (starts_LF c) eqn:E; [|now apply Onto].
    change (split_lines c = split_lines (String a c)).
    now rewrite split_lines_cons, Ha, Hc, E.
  - rewrite starts_LF_app by discriminate.
    destruct (starts_LF (String b s)) eqn:E; simpl andb.
    + exact IH.
    + apply Onto; simpl; [|reflexivity].
      change (starts_LF (String b (s ++ c)) = false). exact E.
Qed.

(** The last piece holds no line feed. *)
Lemma split_lines_last s :
  split_lines (last (split_lines s) EmptyString)
  = [last (split_lines s) EmptyString].
Proof.
  induction s as [|a s IH]; [reflexivity|].
  rewrite split_lines_cons.
  destruct (is_LF a) eqn:Ha.
  { now rewrite last_cons by apply split_lines_not_nil. }
  destruct (is_CR a && starts_LF s) eqn:C; [assumption|].
  destruct (split_lines s) as [|p [|q more]] eqn:Hs.
  - now destruct (split_lines_not_nil s).
  - pose proof (split_single _ _ Hs) as ->.
    change (split_lines (String a s) = [String a s]).
    now rewrite split_lines_cons, Ha, C, Hs.
  - exact IH.
Qed.

Lemma join_app (l1 l2 : list string) : join (l1 ++ l2) = join l1 ++ join l2.
Proof.
  induction l1 as [|v l1 IH]; simpl; [reflexivity|].
  now rewrite IH, append_assoc.
Qed.

(** The lines of the reads, with what is left in [buf], are the pieces of
    the whole text. *)
Lemma cut_reads_split values :
  forall buf,
    split_lines buf = [buf] ->
    (List.concat (cut_reads buf values) ++ [last_buf buf values])%list
    = split_lines (buf ++ join values).
Proof.
  induction values as [|v values IH]; intros buf Hb; simpl.
  - now rewrite append_nil_r.
  - rewrite <- append_assoc, (split_lines_app (buf ++ v) (join values)).
    rewrite <- app_assoc. f_equal. apply IH, split_lines_last.
Qed.

Lemma cut_reads_complete (values : list string) :
  List.concat (cut_reads EmptyString values)
  = removelast (split_lines (join values)) /\
  last_buf EmptyString values
  = last (split_lines (join values)) EmptyString.
Proof.
  pose proof (cut_reads_split values EmptyString eq_refl) as H.
  change (EmptyString ++ join values) with (join values) in H.
  rewrite <- H. split.
  - now rewrite removelast_last.
  - now rewrite last_last.
Qed.

End WireFacts.

Section WireProperties.

Import Str StrFacts Home HomeFacts Wire Spec Spec2 WireFacts.

Variable JSON_parse : string -> option (field * field).

(** X1.  However the response is cut into reads, the lines handed to the
    loop are, in order, the pieces of the whole text that end with a line
    feed; what follows the last line feed stays in [buf] and is never
    handled. *)
Theorem reads_hand_over_complete_lines (values : list string) :
  List.concat (cut_reads EmptyString values)
  = removelast (split_lines (join values)) /\
  last_buf EmptyString values
  = last (split_lines (join values)) EmptyString.
Proof. apply cut_reads_complete. Qed.

(** The loop over the reads is the loop over their lines, one after the
    other. *)
Lemma read_loop_for_lines reads st :
  read_loop reads st =
  match for_lines (List.concat reads) st with
  | (st', Next) => (st', Finished)
  | r => r
  end.
Proof.
  revert st; induction reads as [|lines reads IH]; intros st; [reflexivity|].
  simpl. rewrite for_lines_app.
  destruct (for_lines lines st) as [st' [| |]]; auto.
Qed.

Lemma sendMessage_same_lines render reads1 reads2 :
  for_lines (List.concat reads1) (begin_turn render)
  = for_lines (List.concat reads2) (begin_turn render) ->
  sendMessage render (Some reads1) = sendMessage render (Some reads2).
Proof.
  intros H. unfold sendMessage.
  now rewrite !read_loop_for_lines, H.
Qed.

Lemma concat_lines_read values :
  List.concat (lines_read JSON_parse values)
  = map (classify JSON_parse) (removelast (split_lines (join values))).
Proof.
  unfold lines_read. rewrite <- concat_map.
  now rewrite (proj1 (cut_reads_complete values)).
Qed.


Lemma drop_spaces_app ws p :
  all_space ws = true -> drop_spaces (ws ++ p) = drop_spaces p.
Proof.
  induction ws as [|a ws IH]; simpl; [reflexivity|].
  intros H. apply andb_prop in H as [-> H]. now apply IH.
Qed.

(** X3.  The white space between [data:] and the payload does not count:
    a line is told apart as the same line without it. *)
Theorem white_space_after_data (ws p : string) :
  all_space ws = true ->
  classify JSON_parse ("data:" ++ ws ++ p) = classify JSON_parse ("data:" ++ p).
Proof.
  intros H. unfold classify, strip_data.
  change (starts "data:" ("data:" ++ ?x)) with true.
  change (drop 5 ("data:" ++ ?x)) with x.
  cbn [negb]. now rewrite drop_spaces_app.
Qed.

End WireProperties.


Lemma white_space_after_data_witness :
  Wire.classify (fun _ : string => None) ("data:" ++ "   " ++ "[DONE]")
  = Wire.classify (fun _ : string => None) ("data:" ++ "[DONE]").
Proof.
  apply (white_space_after_data (fun _ : string => None) "   " "[DONE]").
  reflexivity.
Defined.

(** ** From the relay to the page *)

Module FrameFacts.

Import Str StrFacts Home HomeFacts Relay RelayFacts Wire Spec Spec2 Aux2 WireFacts.

Lemma no_control_app a b :
  no_control (a ++ b) = no_control a && no_control b.
Proof.
  induction a as [|c a IH]; simpl; [reflexivity|].
  now rewrite IH, andb_assoc.
Qed.

Lemma quote_unit_no_control a : no_control (quote_unit a) = true.
Proof. destruct a as [[] [] [] [] [] [] [] []]; reflexivity. Qed.

(** [JSON.stringify] leaves no control character in a text. *)
Lemma quote_units_no_control s : no_control (quote_units s) = true.
Proof.
  induction s as [|a s IH]; simpl; [reflexivity|].
  now rewrite no_control_app, quote_unit_no_control, IH.
Qed.

Lemma data_line_no_control e : no_control (data_line e) = true.
Proof.
  destruct e as [text| |message]; [|reflexivity|];
    unfold data_line, JSON_stringify_obj, JSON_stringify;
    rewrite !no_control_app, quote_units_no_control; reflexivity.
Qed.

Lemma frame_data_line e : frame e = data_line e ++ LF ++ LF.
Proof.
  destruct e as [text| |message]; unfold frame, data_line;
    now rewrite ?append_assoc.
Qed.

(** A text without control character up to a line feed is a piece. *)
Lemma split_lines_line line rest :
  no_control line = true ->
  split_lines (line ++ LF ++ rest) = line :: split_lines rest.
Proof.
  induction line as [|a line IH]; intros H; [reflexivity|].
  cbn [no_control] in H. apply andb_prop in H as [Ha H].
  apply Nat.leb_le in Ha.
  change (String a line ++ LF ++ rest) with (String a (line ++ LF ++ rest)).
  rewrite split_lines_cons, (IH H).
  unfold is_LF, is_CR.
  settle_test (nat_of_ascii a =? 10) false.
  settle_test (nat_of_ascii a =? 13) false.
  reflexivity.
Qed.

Lemma split_lines_frames events :
  split_lines (join (map frame events))
  = (flat_map (fun e => [data_line e; EmptyString]) events
     ++ [EmptyString])%list.
Proof.
  induction events as [|e events IH]; [reflexivity|].
  simpl. rewrite frame_data_line, !append_assoc.
  rewrite split_lines_line by apply data_line_no_control.
  change (LF ++ ?x) with (EmptyString ++ LF ++ x).
  rewrite split_lines_line by reflexivity.
  now rewrite IH.
Qed.

(** *** Reading a quoted text back *)

Lemma unquote_quote_unit a rest :
  unquote_unit (quote_unit a ++ rest) = Some (a, rest).
Proof. destruct a as [[] [] [] [] [] [] [] []]; reflexivity. Qed.

Lemma unquote_dq rest : unquote_unit (dq ++ rest) = None.
Proof. reflexivity. Qed.

Lemma quote_units_inj s1 :
  forall s2 r1 r2,
    quote_units s1 ++ dq ++ r1 = quote_units s2 ++ dq ++ r2 ->
    s1 = s2 /\ r1 = r2.
Proof.
  induction s1 as [|a s1 IH]; intros [|b s2] r1 r2 H; simpl in H.
  - injection H as ->. now split.
  - apply (f_equal unquote_unit) in H.
    rewrite append_assoc, unquote_quote_unit in H. discriminate.
  - apply (f_equal unquote_unit) in H.
    rewrite append_assoc, unquote_quote_unit in H. discriminate.
  - pose proof (f_equal unquote_unit H) as U.
    rewrite !append_assoc, !unquote_quote_unit in U.
    injection U as -> U.
    destruct (IH _ _ _ U) as [-> ->]. now split.
Qed.

End FrameFacts.

Section RelayToPage.

Import Str StrFacts Home HomeFacts Relay RelayFacts Wire Spec Spec2 Aux2.
Import WireFacts FrameFacts.

Variable JSON_parse : string -> option (field * field).

Lemma written_handler MODEL_NAME req up :
  method req = Some "POST" ->
  written (handler MODEL_NAME req up) = map frame (relay_events up).
Proof.
  intros H.
  destruct (handler_stream MODEL_NAME req up H)
    as (pre & texts & t & E & W & R & _).
  rewrite E, written_app, W, <- R, !map_app. reflexivity.
Qed.

(** X4.  The text the relay writes for a POST request, cut at line feeds,
    is for each wire event its data line followed by an empty line, and
    nothing is left after the last line feed: whatever a delta holds, line
    feeds and carriage returns included, its frame is one line. *)
Theorem relay_text_lines MODEL_NAME (req : Request) (up : Upstream) :
  method req = Some "POST" ->
  split_lines (join (written (handler MODEL_NAME req up)))
  = (flat_map (fun e => [data_line e; EmptyString]) (relay_events up)
     ++ [EmptyString])%list.
Proof.
  intros H. rewrite (written_handler _ _ _ H). apply split_lines_frames.
Qed.

(** X5.  Two wire events with the same frame are the same event: the
    frames can be told apart and the text they carry read back. *)
Theorem frame_inj (e1 e2 : WireEvent) : frame e1 = frame e2 -> e1 = e2.
Proof.
  destruct e1 as [t1| |m1], e2 as [t2| |m2]; intros H;
    try reflexivity; try discriminate H.
  - unfold frame, JSON_stringify_obj, JSON_stringify in H.
    rewrite !append_assoc in H. simpl in H.
    injection H as H.
    change (String (ascii_of_nat 34) ?x) with (dq ++ x) in H.
    apply quote_units_inj in H as [-> _]. reflexivity.
  - unfold frame, JSON_stringify_obj, JSON_stringify in H.
    rewrite !append_assoc in H. simpl in H.
    injection H as H.
    change (String (ascii_of_nat 34) ?x) with (dq ++ x) in H.
    apply quote_units_inj in H as [-> _]. reflexivity.
Qed.

Lemma classify_empty : classify JSON_parse EmptyString = NotData.
Proof. reflexivity. Qed.

Lemma classify_data_line e :
  parses_back JSON_parse e -> classify JSON_parse (data_line e) = received e.
Proof.
  destruct e as [text| |message]; simpl parses_back; intros H.
  - unfold classify, strip_data, data_line.
    change (starts "data:" ("data: " ++ ?x)) with true.
    change (drop 5 ("data: " ++ ?x)) with (" " ++ x).
    cbn [negb]. change (drop_spaces (" " ++ ?x)) with (drop_spaces x).
    unfold JSON_stringify_obj at 1 2.
    change (drop_spaces ("{" ++ ?x)) with ("{" ++ x).
    change (String.eqb ("{" ++ ?x) "[DONE]") with false.
    cbv iota. fold (JSON_stringify_obj "delta" text). now rewrite H.
  - reflexivity.
  - unfold classify, strip_data, data_line.
    change (starts "data:" ("data: " ++ ?x)) with true.
    change (drop 5 ("data: " ++ ?x)) with (" " ++ x).
    cbn [negb]. change (drop_spaces (" " ++ ?x)) with (drop_spaces x).
    unfold JSON_stringify_obj at 1 2.
    change (drop_spaces ("{" ++ ?x)) with ("{" ++ x).
    change (String.eqb ("{" ++ ?x) "[DONE]") with false.
    cbv iota. fold (JSON_stringify_obj "error" message). now rewrite H.
Qed.

Lemma for_lines_received events :
  forall st,
    for_lines (flat_map (fun e => [received e; NotData]) events) st
    = for_lines (map received events) st.
Proof.
  induction events as [|e events IH]; intros st; [reflexivity|].
  destruct e as [text| |message]; simpl.
  - apply IH.
  - reflexivity.
  - destruct (truthy message); [reflexivity | apply IH].
Qed.

Lemma classify_frames events :
  Forall (parses_back JSON_parse) events ->
  map (classify JSON_parse)
      (flat_map (fun e => [data_line e; EmptyString]) events)
  = flat_map (fun e => [received e; NotData]) events.
Proof.
  induction 1 as [|e events He _ IH]; [reflexivity|].
  simpl. now rewrite (classify_data_line e He), IH.
Qed.

Lemma concat_singletons {A B : Type} (f : A -> B) l :
  List.concat (map (fun e => [f e]) l) = map f l.
Proof. induction l as [|e l IH]; simpl; [reflexivity | now rewrite IH]. Qed.

(** The page reads the frames of the relay as the wire events they are. *)
Lemma page_reads_relay MODEL_NAME req up values render :
  method req = Some "POST" ->
  join values = join (written (handler MODEL_NAME req up)) ->
  Forall (parses_back JSON_parse) (relay_events up) ->
  sendMessage render (Some (lines_read JSON_parse values)) = turn render up.
Proof.
  intros Hm Hv Hp. unfold turn. apply sendMessage_same_lines.
  rewrite concat_lines_read, Hv, (written_handler _ _ _ Hm).
  rewrite split_lines_frames, removelast_last.
  rewrite (classify_frames _ Hp), for_lines_received.
  f_equal. symmetry. apply concat_singletons.
Qed.


End RelayToPage.

Lemma relay_text_lines_witness :
  let up := Relay.Stream [Some ("a" ++ Relay.LF ++ "b"); Some "c"] false in
  Wire.split_lines
    (Spec2.join (Relay.written
                   (Relay.handler "m" (Relay.mkRequest (Some "POST") []) up)))
  = (flat_map (fun e => [Spec2.data_line e; EmptyString]) (Spec.relay_events up)
     ++ [EmptyString])%list.
Proof.
  apply (relay_text_lines "m" (Relay.mkRequest (Some "POST") [])
           (Relay.Stream [Some ("a" ++ Relay.LF ++ "b"); Some "c"] false)).
  reflexivity.
Defined.

Lemma frame_inj_witness : Relay.Delta "a" = Relay.Delta "a".
Proof. apply (frame_inj (Relay.Delta "a") (Relay.Delta "a")). reflexivity. Defined.


(** ** The history and the end of a turn *)

Module TurnFacts.

Import Str StrFacts Page Home HomeFacts Spec Spec2 Aux Aux2.

Lemma set_last_app f l m :
  set_last f (l ++ [m]) = (l ++ [mkMessage (role m) (f (content m))])%list.
Proof.
  induction l as [|a l IH]; [reflexivity|].
  simpl. rewrite IH. destruct (l ++ [m])%list eqn:E; [|reflexivity].
  now destruct l.
Qed.

Lemma set_last_reply f old u c :
  set_last f (old ++ [u; mkMessage assistant c])
  = (old ++ [u; mkMessage assistant (f c)])%list.
Proof.
  change (old ++ [u; ?m])%list with (old ++ [u] ++ [m])%list.
  now rewrite !app_assoc, set_last_app.
Qed.

Lemma for_lines_after lines :
  forall st old u c,
    messages st = (old ++ [u; mkMessage assistant c])%list ->
    fullContent st = c ->
    after_lines lines old u c (fst (for_lines lines st))
                (snd (for_lines lines st)) st.
Proof.
  induction lines as [|l lines IH]; intros st old u c Hm Hf.
  - unfold after_lines. simpl. rewrite append_nil_r. tauto.
  - destruct l as [| |delta error|].
    + apply (IH st old u c Hm Hf).
    + unfold after_lines. simpl. rewrite append_nil_r. tauto.
    + simpl for_lines. unfold after_lines. cbn [stopper streamed stops].
      destruct (field_truthy error) eqn:E.
      * destruct error as [e|]; [|discriminate].
        simpl. rewrite Hm, set_last_reply, append_nil_r. tauto.
      * assert (messages (apply_delta delta st)
                = (old ++ [u; mkMessage assistant (plus c delta)])%list) as Hm'.
        { unfold apply_delta. destruct (isBalanced _); simpl;
            now rewrite Hm, set_last_reply. }
        assert (fullContent (apply_delta delta st) = plus c delta) as Hf'.
        { rewrite fullContent_apply_delta. now rewrite Hf. }
        destruct (IH _ old u _ Hm' Hf') as (H1 & H2 & H3 & H4 & H5).
        assert (plus c delta ++ streamed lines
                = c ++ delta_text (Payload delta error) ++ streamed lines) as A.
        { unfold plus, delta_text. simpl. now rewrite append_assoc. }
        rewrite A in H1, H2.
        repeat split; try assumption.
        -- rewrite H4. unfold apply_delta. now destruct (isBalanced _).
        -- rewrite H5. unfold apply_delta. now destruct (isBalanced _).
    + unfold after_lines. simpl. rewrite append_nil_r. tauto.
Qed.

Lemma begin_turn_messages render :
  messages (begin_turn render)
  = (messages render
     ++ [mkMessage user (input render); mkMessage assistant EmptyString])%list.
Proof. simpl. now rewrite <- app_assoc. Qed.

(** The loop of a turn, from its start. *)
Lemma turn_after_lines render lines :
  after_lines lines (messages render) (mkMessage user (input render))
    EmptyString (fst (for_lines lines (begin_turn render)))
    (snd (for_lines lines (begin_turn render))) (begin_turn render).
Proof.
  apply for_lines_after; [apply begin_turn_messages | reflexivity].
Qed.

Lemma for_lines_stops lines st :
  existsb stops lines = true -> snd (for_lines lines st) <> Next.
Proof.
  revert st; induction lines as [|l lines IH]; intros st; simpl;
    [discriminate|].
  destruct l as [| |delta error|]; simpl; try discriminate.
  - apply IH.
  - destruct (field_truthy error); simpl; [discriminate | apply IH].
Qed.

End TurnFacts.

Section TurnProperties.

Import Str StrFacts Page Home HomeFacts Spec Spec2 Aux TurnFacts.

(** X7.  A turn leaves the earlier messages as they are and appends the
    message of the user and one message of the assistant; this one holds
    the text of the deltas read before the loop stops, which is also the
    full buffer, or the text of the error when an error stops the loop, or
    nothing when the response has no body. *)
Theorem history_after_turn (render : State) (res : option (list (list Line))) :
  blank (input render) = false ->
  let st := fst (sendMessage render res) in
  messages st =
    (messages render
     ++ [mkMessage user (input render);
         mkMessage assistant
           match res with
           | Some reads => reply_of (List.concat reads)
           | None => EmptyString
           end])%list /\
  fullContent st =
    match res with
    | Some reads => streamed (List.concat reads)
    | None => EmptyString
    end.
Proof.
  intros Hb. unfold sendMessage. rewrite Hb.
  destruct res as [reads|]; [|split; [apply begin_turn_messages | reflexivity]].
  rewrite read_loop_for_lines.
  destruct (turn_after_lines render (List.concat reads))
    as (H1 & H2 & _).
  unfold reply_of.
  destruct (for_lines (List.concat reads) (begin_turn render))
    as [st' [| |]]; simpl in *; now split.
Qed.

Lemma history_after_turn_witness :
  let render := mkState [mkMessage user "a"; mkMessage assistant "b"]
                        "c" false "b" "b" in
  let res := Some [[Payload (Some "d") None; NotData];
                   [Payload (Some "e") None; Payload None (Some "err");
                    Payload (Some "f") None]] in
  let st := fst (sendMessage render res) in
  messages st =
    (messages render
     ++ [mkMessage user (input render);
         mkMessage assistant
           match res with
           | Some reads => reply_of (List.concat reads)
           | None => EmptyString
           end])%list /\
  fullContent st =
    match res with
    | Some reads => streamed (List.concat reads)
    | None => EmptyString
    end.
Proof.
  apply (history_after_turn
           (mkState [mkMessage user "a"; mkMessage assistant "b"]
                    "c" false "b" "b")
           (Some [[Payload (Some "d") None; NotData];
                  [Payload (Some "e") None; Payload None (Some "err");
                   Payload (Some "f") None]])).
  reflexivity.
Defined.

(** X8.  What comes after the line that stops the loop is never looked
    at: the sentinel, an error or a payload that cannot be parsed ends the
    turn, whatever reads follow. *)
Theorem nothing_after_stop (render : State) (reads1 reads2 : list (list Line)) :
  existsb stops (List.concat reads1) = true ->
  sendMessage render (Some (reads1 ++ reads2)%list)
  = sendMessage render (Some reads1).
Proof.
  intros H. apply sendMessage_same_lines.
  rewrite concat_app, for_lines_app.
  pose proof (for_lines_stops _ (begin_turn render) H) as N.
  destruct (for_lines (List.concat reads1) (begin_turn render))
    as [st' [| |]]; simpl in *; congruence.
Qed.

Lemma nothing_after_stop_witness :
  let render := mkState [] "hi" false EmptyString EmptyString in
  sendMessage render
    (Some ([[Payload (Some "a") None; DoneLine]]
           ++ [[Payload (Some "b") None]; [Malformed]])%list)
  = sendMessage render (Some [[Payload (Some "a") None; DoneLine]]).
Proof.
  apply (nothing_after_stop (mkState [] "hi" false EmptyString EmptyString)
           [[Payload (Some "a") None; DoneLine]]
           [[Payload (Some "b") None]; [Malformed]]).
  reflexivity.
Defined.



End TurnProperties.

(** ** What is shown of the reply *)

Module ViewFacts.

Import Str StrFacts Page Home HomeFacts Spec Spec2 Aux Aux2 TurnFacts View.

Lemma rows_from_app st l1 l2 :
  forall i,
    rows_from st i (l1 ++ l2)
    = (rows_from st i l1 ++ rows_from st (i + List.length l1) l2)%list.
Proof.
  induction l1 as [|m l1 IH]; intros i; simpl.
  - now rewrite Nat.add_0_r.
  - rewrite IH. do 3 f_equal. lia.
Qed.

(** The row of the reply while it is the last message: the safe buffer,
    then the rest of the full buffer when there is one.  The content of the
    message has no part in it. *)
Lemma last_row st old c :
  messages st = (old ++ [mkMessage assistant c])%list ->
  rows st =
  (rows_from st 0 old
   ++ [mkRow "L" (splitThinkBlocks (renderedContent st))
             (if negb (String.eqb (fullContent st) (renderedContent st))
              then Some (drop (length (renderedContent st)) (fullContent st))
              else None)])%list.
Proof.
  intros H. unfold rows. rewrite H, rows_from_app. f_equal.
  simpl rows_from. unfold row. rewrite H, length_app. simpl List.length.
  settle_test (List.length old =? List.length old + 1 - 1) true.
  reflexivity.
Qed.

(** With the two buffers in order, the rest of the full buffer is shown
    exactly when the full buffer is not balanced, and is not empty then. *)
Lemma buffers_tail st :
  buffers_ok st ->
  negb (String.eqb (fullContent st) (renderedContent st))
  = negb (isBalanced (fullContent st)) /\
  renderedContent st ++ drop (length (renderedContent st)) (fullContent st)
  = fullContent st /\
  (isBalanced (fullContent st) = false ->
   drop (length (renderedContent st)) (fullContent st) <> EmptyString).
Proof.
  intros [[tail Ht] Hb].
  assert (drop (length (renderedContent st)) (fullContent st) = tail) as D
    by (rewrite Ht; apply drop_app).
  repeat split.
  - f_equal. destruct (isBalanced (fullContent st)) eqn:B.
    + apply String.eqb_eq. symmetry. now apply Hb.
    + apply String.eqb_neq. intros E. symmetry in E. apply Hb in E.
      congruence.
  - now rewrite D.
  - intros B E. rewrite D in E. rewrite E in Ht.
    rewrite append_nil_r in Ht. symmetry in Ht. apply Hb in Ht. congruence.
Qed.

(** The rows before the last one show what the history holds. *)
Lemma rows_from_earlier st ms :
  forall i,
    i + List.length ms < List.length (messages st) ->
    rows_from st i ms = map stored_row ms.
Proof.
  induction ms as [|m ms IH]; intros i H; [reflexivity|].
  simpl in H. simpl rows_from. rewrite IH by lia.
  unfold row, stored_row.
  settle_test (i =? List.length (messages st) - 1) false.
  reflexivity.
Qed.

(** The rows of a state whose last message is one of the assistant. *)
Lemma rows_reply st old c :
  messages st = (old ++ [mkMessage assistant c])%list ->
  rows st =
  (map stored_row old
   ++ [mkRow "L" (splitThinkBlocks (renderedContent st))
             (if negb (String.eqb (fullContent st) (renderedContent st))
              then Some (drop (length (renderedContent st)) (fullContent st))
              else None)])%list.
Proof.
  intros H. rewrite (last_row st old c H). f_equal.
  apply rows_from_earlier. rewrite H, length_app. simpl. lia.
Qed.



(** The messages while the lines of a turn are read. *)
Lemma turn_messages render lines :
  exists c,
    messages (fst (for_lines lines (begin_turn render)))
    = ((messages render ++ [mkMessage user (input render)])
       ++ [mkMessage assistant c])%list.
Proof.
  destruct (turn_after_lines render lines) as (_ & H & _).
  eexists. rewrite H, <- app_assoc. reflexivity.
Qed.

End ViewFacts.

Section ViewProperties.

Import Str StrFacts Page Home HomeFacts Spec Spec2 Aux Aux2 TurnFacts View.
Import ViewFacts.

(** X10.  All along the loop of a turn, the rows before the reply show
    the messages as the history holds them, and the row of the reply shows
    the segments of the safe buffer followed, exactly when the full buffer
    is not balanced, by what the full buffer holds after the safe one, as
    it is; this rest is not empty then, and the two together are the full
    buffer. *)
Theorem reply_row_shows_buffers (render : State) (reads : list (list Line)) :
  let st := fst (read_loop reads (begin_turn render)) in
  let rest := drop (length (renderedContent st)) (fullContent st) in
  exists segs tags,
    rebuilds tags segs (renderedContent st) /\
    rows st =
      (map stored_row (messages render ++ [mkMessage user (input render)])
       ++ [mkRow "L" (Some segs)
                 (if isBalanced (fullContent st) then None else Some rest)])%list
    /\ renderedContent st ++ rest = fullContent st /\
    (isBalanced (fullContent st) = false -> rest <> EmptyString).
Proof.
  intros st rest.
  destruct (splitThinkBlocks_total (renderedContent st))
    as (segs & tags & Hs & Hr & _).
  pose proof (buffers_read_loop reads _ (buffers_begin_turn render)) as B.
  fold st in B. destruct (buffers_tail st B) as (T1 & T2 & T3).
  destruct (turn_messages render (List.concat reads)) as (c & Hm).
  rewrite <- read_loop_lines in Hm. fold st in Hm.
  exists segs, tags. split; [exact Hr|]. split; [|split; assumption].
  rewrite (rows_reply st _ _ Hm), Hs, T1.
  now destruct (isBalanced (fullContent st)).
Qed.


End ViewProperties.


(** ** Text without delimiters *)

Module PlainFacts.

Import Str StrFacts OccursFacts RegExp Spec Spec2 Aux Aux2 Page Home.

Lemma without_app c a b : without c (a ++ b) = without c a && without c b.
Proof.
  induction a as [|x a IH]; [reflexivity|].
  simpl. now rewrite IH, andb_assoc.
Qed.

Lemma no_delimiter_app a b :
  no_delimiter (a ++ b) = no_delimiter a && no_delimiter b.
Proof.
  unfold no_delimiter. rewrite !without_app.
  destruct (without "`" a), (without "`" b), (without "$" a); reflexivity.
Qed.

(** A delimiter made of [c] alone does not start a text without [c]. *)
Lemma starts_only c p x :
  p <> EmptyString -> only c p = true -> without c x = true ->
  starts p x = false.
Proof.
  intros Hp Ho Hw. destruct p as [|c' p]; [congruence|].
  destruct x as [|b x]; [reflexivity|].
  simpl in *. apply andb_prop in Ho as [Ho _]. apply andb_prop in Hw as [Hw _].
  apply Ascii.eqb_eq in Ho. subst c'.
  apply negb_true_iff in Hw. now rewrite Hw.
Qed.

Lemma starts_app_plain c p x :
  only c p = true -> without c x = true ->
  forall t, p <> EmptyString -> starts p (t ++ x) = starts p t.
Proof.
  intros Ho Hw. induction p as [|c' p IH]; intros t Hp; [congruence|].
  destruct t as [|a t].
  - change (EmptyString ++ x) with x.
    now rewrite (starts_only c (String c' p) x Hp Ho Hw).
  - change (String a t ++ x) with (String a (t ++ x)).
    cbn [starts]. simpl in Ho. apply andb_prop in Ho as [_ Ho].
    destruct p as [|c'' p']; [reflexivity|].
    rewrite (IH Ho t); [reflexivity | discriminate].
Qed.

Lemma occurrences_from_plain c p x :
  p <> EmptyString -> only c p = true -> without c x = true ->
  forall k, occurrences_from p k x = 0.
Proof.
  intros Hp Ho. induction x as [|a x IH]; intros Hw k; [reflexivity|].
  pose proof (starts_only c p _ Hp Ho Hw) as S.
  simpl in Hw. apply andb_prop in Hw as [_ Hw].
  cbn [occurrences_from]. rewrite S. destruct k; now apply IH.
Qed.

(** The occurrences of such a delimiter are those of the text before. *)
Lemma occurrences_from_app_plain c p x :
  p <> EmptyString -> only c p = true -> without c x = true ->
  forall t k, occurrences_from p k (t ++ x) = occurrences_from p k t.
Proof.
  intros Hp Ho Hw. induction t as [|a t IH]; intros k.
  - change (EmptyString ++ x) with x.
    now rewrite (occurrences_from_plain c p x Hp Ho Hw).
  - pose proof (starts_app_plain c p x Ho Hw (String a t) Hp) as S.
    change (String a t ++ x) with (String a (t ++ x)) in *.
    cbn [occurrences_from]. destruct k; [|apply IH].
    rewrite S, !IH. reflexivity.
Qed.

Lemma isBalanced_counts T :
  isBalanced T = (fence_count T mod 2 =? 0) && (math_count T mod 2 =? 0).
Proof.
  unfold isBalanced, fence_regex, math_regex.
  now rewrite !BalancedFacts.match_count_occurrences by discriminate.
Qed.

Lemma isBalanced_app_no_delimiter T x :
  no_delimiter x = true -> isBalanced (T ++ x) = isBalanced T.
Proof.
  intros H. apply andb_prop in H as [H1 H2].
  rewrite !isBalanced_counts. unfold fence_count, math_count, occurrences.
  rewrite (occurrences_from_app_plain "`" "```" x) by (discriminate || easy).
  rewrite (occurrences_from_app_plain "$" "$$" x) by (discriminate || easy).
  reflexivity.
Qed.

Lemma no_delimiter_streamed lines :
  forallb (fun l => no_delimiter (delta_text l)) lines = true ->
  no_delimiter (streamed lines) = true.
Proof.
  induction lines as [|l lines IH]; [reflexivity|].
  simpl. intros H. apply andb_prop in H as [H1 H2].
  destruct (stops l); [reflexivity|].
  now rewrite no_delimiter_app, H1, IH.
Qed.

End PlainFacts.

Section PlainProperties.

Import Str StrFacts Spec Spec2 Aux Aux2 Page Home HomeFacts TurnFacts.
Import PlainFacts.

(** X12.  Text that holds neither a backtick nor a dollar sign does not
    change whether a text is balanced when it is put after it. *)
Theorem isBalanced_app_plain (T x : string) :
  no_delimiter x = true -> isBalanced (T ++ x) = isBalanced T.
Proof. apply isBalanced_app_no_delimiter. Qed.

(** X13.  When no delta of a reply holds a backtick or a dollar sign, the
    safe buffer is the full buffer all along the loop: all the text read
    so far is shown as segments, none of it as it is. *)
Theorem plain_reply_shown_at_once (render : State) (reads : list (list Line)) :
  forallb (fun l => no_delimiter (delta_text l)) (List.concat reads) = true ->
  let st := fst (read_loop reads (begin_turn render)) in
  renderedContent st = fullContent st /\
  fullContent st = streamed (List.concat reads).
Proof.
  intros H st.
  pose proof (buffers_read_loop reads _ (buffers_begin_turn render)) as [_ B].
  fold st in B.
  destruct (turn_after_lines render (List.concat reads)) as (F & _).
  rewrite <- read_loop_lines in F. fold st in F.
  change (EmptyString ++ ?s) with s in F.
  split; [|exact F].
  apply B. rewrite F.
  change (streamed (List.concat reads))
    with (EmptyString ++ streamed (List.concat reads)).
  rewrite isBalanced_app_no_delimiter; [reflexivity|].
  now apply no_delimiter_streamed.
Qed.

End PlainProperties.

Lemma isBalanced_app_plain_witness :
  Page.isBalanced ("```py" ++ " x = 1") = Page.isBalanced "```py".
Proof. apply (isBalanced_app_plain "```py" " x = 1"). reflexivity. Defined.

Lemma plain_reply_shown_at_once_witness :
  let st :=
    fst (Home.read_loop
           [[Home.Payload (Some "Hel") None; Home.NotData];
            [Home.Payload None None; Home.Payload (Some "lo") None]]
           (Home.begin_turn
              (Home.mkState [] "hi" false EmptyString EmptyString))) in
  Home.renderedContent st = Home.fullContent st /\
  Home.fullContent st
  = Spec2.streamed
      (List.concat
         [[Home.Payload (Some "Hel") None; Home.NotData];
          [Home.Payload None None; Home.Payload (Some "lo") None]]).
Proof.
  apply (plain_reply_shown_at_once
           (Home.mkState [] "hi" false EmptyString EmptyString)
           [[Home.Payload (Some "Hel") None; Home.NotData];
            [Home.Payload None None; Home.Payload (Some "lo") None]]).
  reflexivity.
Defined.

(** ** The segmenter, blob by blob *)

Module SegmentedFacts.

Import Str StrFacts OccursFacts RegExp Spec Spec2 Aux RegExpFacts ThinkFacts.
Import Page.

Lemma occurs_app_l p a b : occurs p a = true -> occurs p (a ++ b) = true.
Proof.
  induction a as [|ch a IH]; rewrite occurs_unfold; intros H.
  - rewrite orb_false_r in H. apply occurs_here. now apply starts_app.
  - apply orb_prop in H as [H|H].
    + apply occurs_here. now apply starts_app.
    + change (String ch a ++ b) with (String ch (a ++ b)).
      rewrite occurs_unfold, (IH H). apply orb_true_r.
Qed.

Lemma open_tag_length o : is_open_tag o = true -> length o = 7.
Proof.
  rewrite open_tag_reads. intros H. now apply same_text_length in H.
Qed.

Lemma split_unterminated md :
  unterminated md = true -> splitThinkBlocks md = Some (plain md).
Proof.
  intros Hu.
  unfold splitThinkBlocks. rewrite splitThinkBlocks_fuel_after.
  simpl think_loop. rewrite exec_at by lia.
  rewrite drop_0, search_think_unterminated by assumption.
  simpl after_loop. f_equal. apply (plain_app md []); [reflexivity | lia].
Qed.

Lemma split_region pre o body c rest segs :
  is_open_tag o = true -> is_close_tag c = true ->
  occurs "<think>" (lower (pre ++ take 6 o)) = false ->
  occurs "</think>" (lower (body ++ take 7 c)) = false ->
  splitThinkBlocks rest = Some segs ->
  splitThinkBlocks (pre ++ o ++ body ++ c ++ rest)
  = Some (plain pre ++ mkSegment body true :: segs)%list.
Proof.
  intros Ho Hc Hpre Hbody Hrest.
  rewrite open_tag_reads in Ho. rewrite close_tag_reads in Hc.
  rewrite <- reads_in_lower in Hpre by apply open_tag_units.
  rewrite <- reads_in_lower in Hbody by apply close_tag_units.
  destruct (split_suffix (length rest) rest (le_n _))
    as (segs0 & _ & _ & _ & Hu).
  assert (segs0 = segs) as ->.
  { unfold splitThinkBlocks in Hrest.
    rewrite splitThinkBlocks_fuel_after in Hrest.
    rewrite (Hu rest 0 [] (S (length rest))) in Hrest
      by (reflexivity || lia).
    now injection Hrest. }
  pose proof (same_text_length _ _ _ Ho) as Lo. simpl in Lo.
  set (md := pre ++ o ++ body ++ c ++ rest).
  assert (length md = length (pre ++ o ++ body ++ c) + length rest) as L.
  { unfold md. rewrite !length_append. lia. }
  unfold splitThinkBlocks. rewrite splitThinkBlocks_fuel_after.
  rewrite (think_loop_match (length md) md 0 [] pre o body c rest
             (mkMatch (0 + length pre) (o ++ body ++ c) (Some body)));
    try reflexivity; [| lia | now apply search_think_first].
  simpl app at 1.
  rewrite Hu.
  - f_equal. now rewrite <- app_assoc.
  - unfold md.
    replace (pre ++ o ++ body ++ c ++ rest)
      with ((pre ++ o ++ body ++ c) ++ rest)
      by now rewrite !append_assoc.
    apply drop_app.
  - lia.
  - rewrite !length_append in *. lia.
Qed.

(** Every blob is cut by the two rules. *)
Lemma split_segmented n :
  forall md, length md <= n ->
    exists segs, splitThinkBlocks md = Some segs /\ segmented md segs.
Proof.
  induction n as [|n IH]; intros md H.
  - assert (md = EmptyString) as -> by (apply length_zero; lia).
    exists (plain EmptyString).
    split; [reflexivity | now constructor].
  - destruct (think_region_or_unterminated md)
      as [U | (pre & o & body & c & rest & E & Ho & Hc & Hp & Hb)].
    + exists (plain md). split; [now apply split_unterminated|].
      now constructor.
    + pose proof (open_tag_length o Ho) as Lo.
      assert (length rest <= n) as Hr.
      { rewrite E, !length_append in H. lia. }
      destruct (IH rest Hr) as (segs & Hs & Hseg).
      exists (plain pre ++ mkSegment body true :: segs)%list. subst md.
      split; [now apply split_region | now constructor].
Qed.

Lemma segmented_plain_apart md segs :
  segmented md segs -> plain_apart segs = true.
Proof.
  induction 1 as [md _|pre o body c rest segs _ _ _ _ _ IH].
  - unfold plain. now destruct (is_empty md).
  - assert (plain_apart (mkSegment body true :: segs) = true) as A
      by (destruct segs; [reflexivity | exact IH]).
    unfold plain. destruct (is_empty pre); [exact A|].
    change (plain_apart (mkSegment pre false :: mkSegment body true :: segs))
      with (plain_apart (mkSegment body true :: segs)).
    exact A.
Qed.

Lemma segmented_think_closed md segs :
  segmented md segs ->
  Forall (fun seg =>
            isThink seg = true ->
            occurs "</think>" (lower (content seg)) = false) segs.
Proof.
  induction 1 as [md _|pre o body c rest segs _ _ _ Hb _ IH].
  - unfold plain. destruct (is_empty md); repeat constructor.
    simpl. discriminate.
  - apply Forall_app. split.
    + unfold plain. destruct (is_empty pre); repeat constructor.
      simpl. discriminate.
    + constructor; [|exact IH]. intros _. simpl.
      destruct (occurs "</think>" (lower body)) eqn:O; [|reflexivity].
      rewrite lower_app in Hb.
      now rewrite (occurs_app_l _ _ (lower (take 7 c)) O) in Hb.
Qed.

End SegmentedFacts.

Section SegmenterProperties.

Import Str Spec Spec2 Page SegmentedFacts.

(** X14.  The two rules say what the segmenter gives for every blob: the
    segments of a blob are those of a blob in which no opening tag has a
    closing tag after it, or the plain segment before the first region,
    the think segment of the region and the segments of what follows the
    region, and so on to the end of the blob. *)
Theorem splitThinkBlocks_segmented (md : string) :
  exists segs, splitThinkBlocks md = Some segs /\ segmented md segs.
Proof. apply (split_segmented (length md)), le_n. Qed.

(** X15.  The segmenter never gives two plain segments side by side: of
    two neighbours one at least is a think segment. *)
Theorem plain_segments_apart (md : string) :
  exists segs, splitThinkBlocks md = Some segs /\ plain_apart segs = true.
Proof.
  destruct (split_segmented (length md) md (le_n _)) as (segs & H & S).
  exists segs. split; [exact H | now apply (segmented_plain_apart md)].
Qed.

(** X16.  No think segment holds a closing tag, in any letter case: a
    region ends at the first closing tag after its opening tag. *)
Theorem think_segments_hold_no_closing_tag (md : string) :
  exists segs,
    splitThinkBlocks md = Some segs /\
    forall seg, In seg segs -> isThink seg = true ->
      occurs "</think>" (lower (content seg)) = false.
Proof.
  destruct (split_segmented (length md) md (le_n _)) as (segs & H & S).
  exists segs. split; [exact H|].
  pose proof (segmented_think_closed md segs S) as F.
  rewrite Forall_forall in F. exact F.
Qed.

End SegmenterProperties.

(** ** The provider, the relay and the history *)

Module ProviderFacts.

Import Str StrFacts Home HomeFacts Relay RelayFacts Spec Spec2 Aux2 TurnFacts.

Lemma for_await_tail parts throws :
  forallb after_create (for_await parts throws) = true /\
  List.length (filter is_end (for_await parts throws)) = 1 /\
  List.length (filter is_log (for_await parts throws))
  = (if throws then 1 else 0).
Proof.
  induction parts as [|[delta|] parts IH]; simpl.
  - destruct throws; repeat split.
  - destruct (truthy delta); simpl; exact IH.
  - exact IH.
Qed.

(** What the wire events of a stream add to the buffer, and the one that
    stops the loop. *)
Lemma relay_events_streamed parts throws :
  streamed (map received (relay_events (Stream parts throws))) = said parts /\
  stopper (map received (relay_events (Stream parts throws)))
  = Some (if throws then Payload None (Some "OpenAI API error") else DoneLine).
Proof.
  unfold relay_events. induction parts as [|[text|] parts [IH1 IH2]].
  - destruct throws; split; reflexivity.
  - cbn [flat_map said]. destruct (truthy text) eqn:T.
    + cbn [app map received streamed stopper stops field_truthy delta_text].
      rewrite IH1, IH2. split; reflexivity.
    + destruct text; [|discriminate]. cbn [app]. now split.
  - cbn [flat_map said app]. now split.
Qed.

(** The end of a turn that has read the wire events of the relay. *)
Lemma turn_provider render up :
  blank (input render) = false ->
  let st := fst (turn render up) in
  messages st =
    (messages render
     ++ [mkMessage user (input render);
         mkMessage assistant
           (if failed up then "OpenAI API error"
            else match up with
                 | Stream parts _ => said parts
                 | CreateRejects => EmptyString
                 end)])%list /\
  fullContent st =
    match up with
    | Stream parts _ => said parts
    | CreateRejects => EmptyString
    end /\
  loading st = false.
Proof.
  intros Hb. unfold turn, sendMessage. rewrite Hb, read_loop_for_lines.
  rewrite concat_singletons.
  destruct (turn_after_lines render (map received (relay_events up)))
    as (H1 & H2 & H3 & _).
  destruct (for_lines (map received (relay_events up)) (begin_turn render))
    as [st' ex].
  cbn [fst snd] in H1, H2, H3.
  change (EmptyString ++ ?x) with x in H1, H2.
  destruct up as [|parts throws].
  - simpl in H1, H2, H3. subst ex. simpl. now repeat split.
  - destruct (relay_events_streamed parts throws) as [S1 S2].
    rewrite S1 in H1, H2. rewrite S2 in H2, H3.
    destruct throws; subst ex; simpl; now repeat split.
Qed.

End ProviderFacts.

Section ProviderProperties.

Import Str StrFacts Home HomeFacts Relay RelayFacts Wire Spec Spec2 Aux2.
Import ProviderFacts.

Variable JSON_parse : string -> option (field * field).

(** X17.  For a POST request the relay sets its three headers and sends
    them before it calls the provider, calls the provider once, with the
    model of the environment and the messages of the request as they are,
    and after that only writes, logs and ends: it ends the response once,
    logs an error once when the provider fails and never otherwise, and
    sets no status. *)
Theorem relay_calls_provider_once MODEL_NAME (req : Request) (up : Upstream) :
  method req = Some "POST" ->
  exists tail,
    handler MODEL_NAME req up =
      ([ setHeader "Content-Type" (One "text/event-stream");
         setHeader "Cache-Control" (One "no-cache, no-transform");
         setHeader "Connection" (One "keep-alive");
         flushHeaders;
         create MODEL_NAME (body_messages req) ] ++ tail)%list /\
    forallb after_create tail = true /\
    List.length (filter is_end tail) = 1 /\
    List.length (filter is_log tail) = (if failed up then 1 else 0).
Proof.
  intros H. rewrite (handler_POST _ _ _ H).
  eexists. split; [reflexivity|].
  destruct up as [|parts throws]; [now repeat split|].
  apply for_await_tail.
Qed.

(** X18.  From the provider to the history: when the page has read what
    the relay writes for a POST request, however it is cut into reads, the
    reply of the history is all the provider has said, part after part, or
    the message [OpenAI API error] alone when the provider has failed, in
    place of what it had said before; the full buffer holds what the
    provider has said in both cases, and [loading] is cleared. *)
Theorem provider_text_reaches_history MODEL_NAME (req : Request)
    (up : Upstream) (values : list string) (render : State) :
  method req = Some "POST" ->
  join values = join (written (handler MODEL_NAME req up)) ->
  Forall (parses_back JSON_parse) (relay_events up) ->
  blank (input render) = false ->
  let st := fst (sendMessage render (Some (lines_read JSON_parse values))) in
  messages st =
    (messages render
     ++ [mkMessage user (input render);
         mkMessage assistant
           (if failed up then "OpenAI API error"
            else match up with
                 | Stream parts _ => said parts
                 | CreateRejects => EmptyString
                 end)])%list /\
  fullContent st =
    match up with
    | Stream parts _ => said parts
    | CreateRejects => EmptyString
    end /\
  loading st = false.
Proof.
  intros Hm Hv Hp Hb.
  rewrite (page_reads_relay JSON_parse MODEL_NAME req up values render Hm Hv Hp).
  now apply turn_provider.
Qed.

End ProviderProperties.

Lemma relay_calls_provider_once_witness :
  let req := Relay.mkRequest (Some "POST")
               [Home.mkMessage Home.user "hi"] in
  let up := Relay.Stream [Some "a"; None] true in
  exists tail,
    Relay.handler "m" req up =
      ([ Relay.setHeader "Content-Type" (Relay.One "text/event-stream");
         Relay.setHeader "Cache-Control" (Relay.One "no-cache, no-transform");
         Relay.setHeader "Connection" (Relay.One "keep-alive");
         Relay.flushHeaders;
         Relay.create "m" (Relay.body_messages req) ] ++ tail)%list /\
    forallb Spec2.after_create tail = true /\
    List.length (filter Spec2.is_end tail) = 1 /\
    List.length (filter Spec2.is_log tail)
    = (if Spec2.failed up then 1 else 0).
Proof.
  apply (relay_calls_provider_once "m"
           (Relay.mkRequest (Some "POST") [Home.mkMessage Home.user "hi"])
           (Relay.Stream [Some "a"; None] true)).
  reflexivity.
Defined.

Lemma provider_text_reaches_history_witness :
  let parse := fun p : string =>
    if String.eqb p (Relay.JSON_stringify_obj "delta" "Hi")
    then Some (Some "Hi", @None string)
    else if String.eqb p (Relay.JSON_stringify_obj "error" "OpenAI API error")
    then Some (@None string, Some "OpenAI API error")
    else None in
  let up := Relay.Stream [Some "Hi"; None] true in
  let render := Home.mkState [] "hi" false EmptyString EmptyString in
  let st :=
    fst (Home.sendMessage render
           (Some (Wire.lines_read parse
                    (Relay.written
                       (Relay.handler "m" (Relay.mkRequest (Some "POST") [])
                          up))))) in
  Home.messages st =
    (Home.messages render
     ++ [Home.mkMessage Home.user (Home.input render);
         Home.mkMessage Home.assistant
           (if Spec2.failed up then "OpenAI API error"
            else match up with
                 | Relay.Stream parts _ => Spec2.said parts
                 | Relay.CreateRejects => EmptyString
                 end)])%list /\
  Home.fullContent st =
    match up with
    | Relay.Stream parts _ => Spec2.said parts
    | Relay.CreateRejects => EmptyString
    end /\
  Home.loading st = false.
Proof.
  apply (provider_text_reaches_history
           (fun p : string =>
              if String.eqb p (Relay.JSON_stringify_obj "delta" "Hi")
              then Some (Some "Hi", @None string)
              else if String.eqb p
                        (Relay.JSON_stringify_obj "error" "OpenAI API error")
              then Some (@None string, Some "OpenAI API error")
              else None)
           "m" (Relay.mkRequest (Some "POST") [])
           (Relay.Stream [Some "Hi"; None] true)).
  - reflexivity.
  - reflexivity.
  - repeat constructor.
  - reflexivity.
Defined.

(** ** The code blocks *)

Module CodeBlockFacts.

Import Str StrFacts Relay Wire CodeBlock Aux2.

Lemma code_app_LF s : code (s ++ LF) = s.
Proof.
  induction s as [|a s IH]; [reflexivity|].
  change (String a s ++ LF) with (String a (s ++ LF)).
  cbn [code]. rewrite IH.
  replace (is_empty (s ++ LF)) with false by now destruct s.
  now rewrite andb_false_r.
Qed.

Lemma code_no_LF s : (forall t, s <> t ++ LF) -> code s = s.
Proof.
  induction s as [|a s IH]; intros H; [reflexivity|].
  cbn [code]. destruct (is_LF a && is_empty s) eqn:E.
  - exfalso. apply andb_prop in E as [E1 E2].
    destruct s; [|discriminate].
    apply Nat.eqb_eq in E1.
    apply (H EmptyString). simpl. unfold LF. f_equal.
    now rewrite <- E1, ascii_nat_embedding.
  - f_equal. apply IH. intros t ->. now apply (H (String a t)).
Qed.

Lemma clearTimeout_one i : clearTimeout i [i] = [].
Proof. unfold clearTimeout. simpl. now rewrite Nat.eqb_refl. Qed.

Lemma copy_ok_step s e : copy_ok s -> copy_ok (step s e).
Proof.
  intros [F P]. destruct e as [| |id]; [| now split |].
  - assert (match timer s with
            | Some id => if id =? 0 then pending s
                         else clearTimeout id (pending s)
            | None => pending s
            end = []) as E.
    { destruct (pending s) as [|i [|j l]]; [| |contradiction].
      - destruct (timer s) as [id|]; [|reflexivity].
        now destruct (id =? 0).
      - destruct P as (_ & -> & P0 & _).
        settle_test (i =? 0) false. apply clearTimeout_one. }
    unfold step. rewrite E. split; simpl; [lia | repeat split; lia].
  - unfold step.
    destruct (pending s) as [|i [|j l]] eqn:Hp; [| |contradiction].
    + simpl. split; [exact F | now rewrite Hp].
    + cbn [existsb]. rewrite orb_false_r. destruct (id =? i) eqn:E.
      * apply Nat.eqb_eq in E. subst id. rewrite clearTimeout_one.
        now split.
      * split; [exact F | now rewrite Hp].
Qed.

Lemma copy_ok_fold events :
  forall s, copy_ok s -> copy_ok (fold_left step events s).
Proof.
  induction events as [|e events IH]; intros s H; [exact H|].
  simpl. now apply IH, copy_ok_step.
Qed.

Lemma copy_ok_run events : copy_ok (run events).
Proof. apply copy_ok_fold. split; [simpl; lia | reflexivity]. Qed.

End CodeBlockFacts.

Section CodeBlockProperties.

Import Str Relay CodeBlock Aux2 CodeBlockFacts.

(** X19.  The text of a code block is the text it is given without its
    final line feed: one line feed is taken off the end, and a text that
    does not end with a line feed is shown as it is. *)
Theorem code_strips_one_line_feed (s : string) :
  code (s ++ LF) = s /\ ((forall t, s <> t ++ LF) -> code s = s).
Proof. split; [apply code_app_LF | apply code_no_LF]. Qed.

(** X20.  Whatever the clicks on the copy button and the timeouts that
    fire, at most one timeout is pending, that of the last copy: the label
    is [Copied!] exactly while this timeout is pending, and it is [Copy]
    again once it has fired.  A copy made while the label is [Copied!]
    clears the timeout of the copy before, which never fires. *)
Theorem copy_label_follows_last_copy (events : list Event) :
  let s := run events in
  match pending s with
  | [] => copied s = false
  | [i] =>
      copied s = true /\ timer s = Some i /\
      copied (step s (timeout i)) = false /\
      pending (step s (timeout i)) = [] /\
      pending (step s written_to_clipboard) = [fresh s] /\ i <> fresh s
  | _ => False
  end.
Proof.
  intros s. destruct (copy_ok_run events) as [F P]. fold s in F, P.
  pose proof (copy_ok_step s written_to_clipboard (conj F P)) as [_ W].
  destruct (pending s) as [|i [|j l]] eqn:Hp; [exact P | | contradiction].
  destruct P as (C & T & P0 & Pf). repeat split; try assumption.
  - unfold step. rewrite Hp. simpl. now rewrite Nat.eqb_refl.
  - unfold step, clearTimeout. rewrite Hp. simpl.
    now rewrite !Nat.eqb_refl.
  - simpl in W. simpl.
    destruct (match timer s with
              | Some id => if id =? 0 then pending s
                           else clearTimeout id (pending s)
              | None => pending s
              end) as [|k l]; [reflexivity | contradiction].
  - lia.
Qed.

End CodeBlockProperties.
